(** * The Chosen One: the finger registry and its elimination timer

    A shallow embedding of [src/App.tsx] (component [FingerPickerGame]).

    - The React state [fingers : Map<number, Finger>] is an insertion-ordered
      association list, as a JavaScript [Map] iterates in insertion order and
      both [Array.from(prev.keys())] and the dependency string of the
      reconciliation effect observe that order.
    - Everything the component touches outside [fingers] (the other two state
      cells, the timer ref, the browser's live intervals, the random and clock
      sources, the calls made on the audio collaborator) lives in a [World]
      that is threaded through a small state monad.
    - A value of [Math.random()] is the rational that the returned double
      denotes, and [Math.floor(r * n)] is the floor of the double nearest to
      the product, ties to even, as IEEE 754 multiplication rounds it;
      [Date.now()] is a stream of integers.
    - Events are handled one at a time: every handler runs to completion and
      React renders.  The reconciliation effect of a render runs before the
      next render starts and touches nothing a handler reads before then, so
      it is run in the same turn.  The effect that attaches the pointer
      listeners is run by React after the render too, and a pointer event can
      reach the listeners of an earlier render before then: the state records
      the map the attached listeners closed over, and the event loop delivers
      [ListenersAttached] when the effect runs.  The event loop of the model
      may deliver it at any time, so that a property of all runs of the model
      holds however the browser interleaves the effect with the events. *)

From Stdlib Require Import ZArith QArith Qround List String Ascii Bool Lia.
From Stdlib Require Import DecimalString.
From Stdlib Require DecimalPos DecimalZ.
From Stdlib Require SpecFloat.
Import ListNotations.

Local Open Scope string_scope.
Local Open Scope Z_scope.

(** ** Numbers and strings *)

(** [String(n)] for an integer-valued number: plain decimal notation. *)
Definition Number_toString (n : Z) : string :=
  NilZero.string_of_int (Z.to_int n).

(** The integer nearest to the fraction [num / den] of a nonnegative [num]
    and a positive [den], the even one of two that are equally near. *)
Definition roundHalfEven (num den : Z) : Z :=
  let fl := num / den in
  match 2 * (num mod den) ?= den with
  | Lt => fl
  | Gt => fl + 1
  | Eq => if Z.even fl then fl else fl + 1
  end.

(** The exponent of the last place of the doubles around [p / q]: 52 below
    the exponent of [p / q], and [-1074] for the subnormal numbers. *)
Definition lastPlace (p q : Z) : Z :=
  Z.max (Z.log2 (p * 2 ^ 1074 / q) - 1126) (-1074).

(** A double, [significand * 2 ^ exponent]. *)
Record Double : Type := mkDouble {
  significand : Z;
  exponent : Z
}.

(** The double nearest to a real number, ties to even: the rounding of every
    arithmetic operation on numbers.  (Below the overflow threshold
    [2 ^ 1024], which no product of the component comes near.) *)
Definition binary64 (x : Q) : Double :=
  let p := Z.abs (Qnum x) in
  let q := Zpos (Qden x) in
  let e := lastPlace p q in
  let m := if 0 <=? e then roundHalfEven p (q * 2 ^ e)
           else roundHalfEven (p * 2 ^ (- e)) q in
  mkDouble (Z.sgn (Qnum x) * m) e.

(** [Math.floor(d)]. *)
Definition Math_floor (d : Double) : Z :=
  Z.shiftl (significand d) (exponent d).

(** [Math.floor(r * n)] for a double [r] and an integer [n]: the product is
    rounded to a double before the floor is taken. *)
Definition Math_floor_mul (r : Q) (n : Z) : Z :=
  Math_floor (binary64 (r * inject_Z n)%Q).

Arguments Math_floor_mul : simpl never.

(** The template literal [`hsl(${h} ${s}% ${l}%)`]. *)
Definition hsl (h s l : Z) : string :=
  "hsl(" ++ Number_toString h ++ " " ++ Number_toString s ++ "% "
         ++ Number_toString l ++ "%)".

(** [a[i]] for an integer [i]: [undefined] outside the array. *)
Definition Array_at (a : list Z) (i : Z) : option Z :=
  if i <? 0 then None else nth_error a (Z.to_nat i).

(** [Array.prototype.toString]: the elements joined by a comma. *)
Definition Array_toString (a : list Z) : string :=
  String.concat "," (map Number_toString a).

Definition DEFAULT_BG : string := "#0A0A0A".

(** ** The data model *)

Record Finger : Type := mkFinger {
  id : Z;
  x : Z;
  y : Z;
  color : string;
  createdAt : Z
}.

(** [{ ...f, x: clientX, y: clientY }] *)
Definition Finger_moved (f : Finger) (clientX clientY : Z) : Finger :=
  mkFinger (id f) clientX clientY (color f) (createdAt f).

(** [Map<number, Finger>], in insertion order. *)
Definition FingerMap : Type := list (Z * Finger).

Module JsMap.

Fixpoint has (m : FingerMap) (k : Z) : bool :=
  match m with
  | [] => false
  | (k', _) :: m' => if Z.eqb k' k then true else has m' k
  end.

Fixpoint get (m : FingerMap) (k : Z) : option Finger :=
  match m with
  | [] => None
  | (k', v) :: m' => if Z.eqb k' k then Some v else get m' k
  end.

(** [set] keeps the position of a key that is present and appends a key
    that is not. *)
Fixpoint set (m : FingerMap) (k : Z) (v : Finger) : FingerMap :=
  match m with
  | [] => [(k, v)]
  | (k', v') :: m' =>
      if Z.eqb k' k then (k, v) :: m' else (k', v') :: set m' k v
  end.

(** [delete] drops the entry of the key; an absent key (and [undefined])
    leaves the map as it is. *)
Fixpoint delete (m : FingerMap) (k : Z) : FingerMap :=
  match m with
  | [] => []
  | (k', v') :: m' =>
      if Z.eqb k' k then m' else (k', v') :: delete m' k
  end.

Definition size (m : FingerMap) : nat := List.length m.
Definition keys (m : FingerMap) : list Z := map fst m.
Definition values (m : FingerMap) : list Finger := map snd m.

(** The representation invariant of a JavaScript [Map]: one entry per key. *)
Definition wf (m : FingerMap) : Prop := NoDup (keys m).

End JsMap.

(** [Set<string>.has] on the set built from an array. *)
Definition Set_has (s : list string) (c : string) : bool :=
  existsb (String.eqb c) s.

(** ** The world outside [fingers] *)

Inductive Sound : Type := SoundAdd | SoundRemove | SoundWin.

(** The calls the component makes on its collaborators, in order. *)
Inductive Call : Type :=
| PlaySound (s : Sound)
| SetWinnerId (w : option Z)
| SetBgColor (c : string)
| SetInterval (h : nat)
| ClearInterval (h : nat).

Record World : Type := mkWorld {
  winnerId : option Z;
  bgColor : string;
  eliminationTimerRef : option nat;
  intervals : list nat;
  nextHandle : nat;
  randomCalls : nat;
  nowCalls : nat;
  trace : list Call
}.

Definition M (A : Type) : Type := World -> A * World.

Definition ret {A : Type} (a : A) : M A := fun w => (a, w).

Definition bind {A B : Type} (c : M A) (k : A -> M B) : M B :=
  fun w => let (a, w') := c w in k a w'.

Declare Scope js_scope.
Delimit Scope js_scope with js.
Notation "x <- c ;; k" := (bind c (fun x => k))
  (at level 61, c at next level, right associativity) : js_scope.
Notation "c ;;; k" := (bind c (fun _ => k))
  (at level 61, right associativity) : js_scope.

Definition when (b : bool) (c : M unit) : M unit :=
  if b then c else ret tt.

Definition log (c : Call) : M unit := fun w =>
  (tt, mkWorld (winnerId w) (bgColor w) (eliminationTimerRef w) (intervals w)
               (nextHandle w) (randomCalls w) (nowCalls w) (trace w ++ [c])).

Definition playSound (s : Sound) : M unit := log (PlaySound s).

Definition setWinnerId (v : option Z) : M unit := fun w =>
  log (SetWinnerId v)
      (mkWorld v (bgColor w) (eliminationTimerRef w) (intervals w)
               (nextHandle w) (randomCalls w) (nowCalls w) (trace w)).

Definition setBgColor (c : string) : M unit := fun w =>
  log (SetBgColor c)
      (mkWorld (winnerId w) c (eliminationTimerRef w) (intervals w)
               (nextHandle w) (randomCalls w) (nowCalls w) (trace w)).

Definition readTimerRef : M (option nat) := fun w =>
  (eliminationTimerRef w, w).

Definition writeTimerRef (r : option nat) : M unit := fun w =>
  (tt, mkWorld (winnerId w) (bgColor w) r (intervals w)
               (nextHandle w) (randomCalls w) (nowCalls w) (trace w)).

Local Open Scope js_scope.

(** [window.setInterval] hands out a fresh handle and keeps the interval
    alive until it is cleared. *)
Definition window_setInterval : M nat := fun w =>
  let h := nextHandle w in
  (log (SetInterval h) ;;; ret h)
    (mkWorld (winnerId w) (bgColor w) (eliminationTimerRef w)
             (intervals w ++ [h]) (S h) (randomCalls w) (nowCalls w)
             (trace w)).

Definition without (h : nat) (l : list nat) : list nat :=
  filter (fun h' => negb (Nat.eqb h' h)) l.

(** [window.clearInterval] forgets the interval with that handle. *)
Definition window_clearInterval (h : nat) : M unit := fun w =>
  log (ClearInterval h)
      (mkWorld (winnerId w) (bgColor w) (eliminationTimerRef w)
               (without h (intervals w)) (nextHandle w)
               (randomCalls w) (nowCalls w) (trace w)).

(** JavaScript truthiness of [eliminationTimerRef.current]: [null] and the
    number [0] are falsy. *)
Definition truthy (r : option nat) : option nat :=
  match r with
  | Some (S n) => Some (S n)
  | _ => None
  end.

(** The fragment that occurs three times in the source:
    [if (ref.current) { clearInterval(ref.current); ref.current = null; }] *)
Definition clearEliminationTimer : M unit :=
  r <- readTimerRef ;;
  match truthy r with
  | Some h => window_clearInterval h ;;; writeTimerRef None
  | None => ret tt
  end.

(** ** Input events *)

Inductive PointerType : Type := Mouse | Pen | Touch.

Definition isMouse (t : PointerType) : bool :=
  match t with Mouse => true | _ => false end.

Record PointerEvent : Type := mkPointerEvent {
  pointerId : Z;
  clientX : Z;
  clientY : Z;
  pointerType : PointerType;
  button : Z;
  isPrimary : bool
}.

(** What the event loop can deliver to the component: the four pointer
    events it listens to, the firing of the interval with handle [h], and
    the run of the effect that attaches the pointer listeners of the latest
    render. *)
Inductive Event : Type :=
| PointerDown (e : PointerEvent)
| PointerMove (e : PointerEvent)
| PointerUp (e : PointerEvent)
| PointerCancel (e : PointerEvent)
| IntervalFired (h : nat)
| ListenersAttached.

(** The component between two events: the state [fingers], the world, and
    [listening], the [fingers] of the render whose pointer listeners are
    attached (the map that [onPointerMove] closed over). *)
Record App : Type := mkApp {
  fingers : FingerMap;
  world : World;
  listening : FingerMap
}.

Section Component.

(** The environment: the value of the [n]-th call of [Math.random()] and
    of the [n]-th call of [Date.now()]. *)
Variable random : nat -> Q.
Variable clock : nat -> Z.

Definition Math_random : M Q := fun w =>
  (random (randomCalls w),
   mkWorld (winnerId w) (bgColor w) (eliminationTimerRef w) (intervals w)
           (nextHandle w) (S (randomCalls w)) (nowCalls w) (trace w)).

Definition Date_now : M Z := fun w =>
  (clock (nowCalls w),
   mkWorld (winnerId w) (bgColor w) (eliminationTimerRef w) (intervals w)
           (nextHandle w) (randomCalls w) (S (nowCalls w)) (trace w)).

(** *** [randomUniqueColor] *)

(** The [for] loop with [tries] iterations left, then the fallback. *)
Fixpoint randomUniqueColor_from (tries : nat) (existing : list string)
  : M string :=
  match tries with
  | O =>
      r <- Math_random ;;
      ret (hsl (Math_floor_mul r 360) 75 50)
  | S tries' =>
      rh <- Math_random ;;
      rs <- Math_random ;;
      rl <- Math_random ;;
      let h := Math_floor_mul rh 360 in
      let s := 70 + Math_floor_mul rs 15 in
      let l := 45 + Math_floor_mul rl 8 in
      let c := hsl h s l in
      if negb (Set_has existing c) then ret c
      else randomUniqueColor_from tries' existing
  end.

Definition randomUniqueColor (existing : list string) : M string :=
  randomUniqueColor_from 30 existing.

(** *** The two updaters passed to [setFingers] by the input handlers *)

Definition upsertFinger (id clientX clientY : Z) (prev : FingerMap)
  : M FingerMap :=
  let next := prev in
  let existing := map color (JsMap.values next) in
  if JsMap.has next id then
    match JsMap.get next id with
    | Some f => ret (JsMap.set next id (Finger_moved f clientX clientY))
    | None => ret next
    end
  else
    color <- randomUniqueColor existing ;;
    now <- Date_now ;;
    playSound SoundAdd ;;;
    ret (JsMap.set next id (mkFinger id clientX clientY color now)).

Definition removeFinger (id : Z) (prev : FingerMap) : M FingerMap :=
  if negb (JsMap.has prev id) then ret prev
  else
    let next := JsMap.delete prev id in
    when (0 <? JsMap.size next)%nat (playSound SoundRemove) ;;;
    ret next.

(** *** The elimination timer *)

(** The updater the interval callback passes to [setFingers]. *)
Definition eliminationTick (prev : FingerMap) : M FingerMap :=
  if (JsMap.size prev <=? 1)%nat then
    clearEliminationTimer ;;;
    ret prev
  else
    let keys := JsMap.keys prev in
    r <- Math_random ;;
    let index := Math_floor_mul r (Z.of_nat (List.length keys)) in
    let loserId := Array_at keys index in
    let next :=
      match loserId with
      | Some k => JsMap.delete prev k
      | None => prev
      end in
    when (0 <? JsMap.size next)%nat (playSound SoundRemove) ;;;
    (if (JsMap.size next =? 1)%nat then
       match JsMap.keys next with
       | finalId :: _ =>
           setWinnerId (Some finalId) ;;;
           match JsMap.get next finalId with
           | Some f => playSound SoundWin
           | None => ret tt
           end
       | [] => ret tt
       end
     else ret tt) ;;;
    ret next.

Definition resetEliminationTimer (fingers : FingerMap) : M unit :=
  clearEliminationTimer ;;;
  if (JsMap.size fingers <=? 1)%nat then ret tt
  else
    h <- window_setInterval ;;
    writeTimerRef (Some h).

(** The body of the effect keyed on [Array.from(fingers.keys()).toString()]. *)
Definition reconcileTimer (fingers : FingerMap) : M unit :=
  if (1 <? JsMap.size fingers)%nat then resetEliminationTimer fingers
  else
    clearEliminationTimer ;;;
    when (JsMap.size fingers =? 0)%nat
         (setWinnerId None ;;; setBgColor DEFAULT_BG).

(** *** Input handlers *)

(** [onPointerDown]: a mouse button other than the primary one is
    ignored; pointer capture is outside the model. *)
Definition onPointerDown (e : PointerEvent) (prev : FingerMap)
  : M FingerMap :=
  if isMouse (pointerType e) && negb (button e =? 0) then ret prev
  else upsertFinger (pointerId e) (clientX e) (clientY e) prev.

(** [onPointerMove]: [fingers] is the map the listener closed over, the
    state of the render that attached it; [prev] is the state the updater
    is applied to. *)
Definition onPointerMove (fingers : FingerMap) (e : PointerEvent)
           (prev : FingerMap) : M FingerMap :=
  if negb (isPrimary e) && isMouse (pointerType e) then ret prev
  else if JsMap.has fingers (pointerId e) then
    upsertFinger (pointerId e) (clientX e) (clientY e) prev
  else ret prev.

(** [onPointerUp], also registered for [pointercancel]. *)
Definition onPointerUp (e : PointerEvent) (prev : FingerMap)
  : M FingerMap :=
  removeFinger (pointerId e) prev.

(** *** One turn of the event loop *)

(** The dependency of the reconciliation effect. *)
Definition timerDep (fingers : FingerMap) : string :=
  Array_toString (JsMap.keys fingers).

(** After the state update React renders and runs the reconciliation
    effect when its dependency string differs from the previous render's.
    The attached listeners stay as they are. *)
Definition commit (s : App) (update : M FingerMap) : App :=
  let (next, w) := update (world s) in
  if String.eqb (timerDep (fingers s)) (timerDep next)
  then mkApp next w (listening s)
  else mkApp next (snd (reconcileTimer next w)) (listening s).

(** The effect with dependency [[fingers]] runs: the listeners of the
    earlier render are removed and those of the latest render, which close
    over its [fingers], are attached. *)
Definition attachListeners (s : App) : App :=
  mkApp (fingers s) (world s) (fingers s).

Definition dispatch (s : App) (ev : Event) : App :=
  match ev with
  | PointerDown e => commit s (onPointerDown e (fingers s))
  | PointerMove e => commit s (onPointerMove (listening s) e (fingers s))
  | PointerUp e => commit s (onPointerUp e (fingers s))
  | PointerCancel e => commit s (onPointerUp e (fingers s))
  | IntervalFired h =>
      if existsb (Nat.eqb h) (intervals (world s))
      then commit s (eliminationTick (fingers s))
      else s
  | ListenersAttached => attachListeners s
  end.

Definition run (s : App) (evs : list Event) : App :=
  fold_left dispatch evs s.

(** The component after its first render: an empty registry, and both
    effects have run once. *)
Definition mount : App :=
  mkApp [] (snd (reconcileTimer []
                   (mkWorld None DEFAULT_BG None [] 1 0 0 [])))
        [].

End Component.

(** ** Vocabulary of the properties *)

(** The sounds among a sequence of calls. *)
Fixpoint sounds (t : list Call) : list Sound :=
  match t with
  | [] => []
  | PlaySound s :: t' => s :: sounds t'
  | _ :: t' => sounds t'
  end.

(** The values [setWinnerId] was called with. *)
Fixpoint winnerSets (t : list Call) : list (option Z) :=
  match t with
  | [] => []
  | SetWinnerId v :: t' => v :: winnerSets t'
  | _ :: t' => winnerSets t'
  end.

(** The calls made between world [w] and a later world [w']. *)
Definition since (w w' : World) : list Call :=
  skipn (List.length (trace w)) (trace w').

(** The elimination timer is running when the browser holds a live
    interval. *)
Definition timerRunning (w : World) : bool :=
  match intervals w with
  | [] => false
  | _ :: _ => true
  end.

(** The timer ref and the browser agree: the ref holds the handle of the
    only live interval, handles are positive and never handed out twice. *)
Definition coherent (w : World) : Prop :=
  (1 <= nextHandle w)%nat /\
  match eliminationTimerRef w with
  | Some h => (1 <= h < nextHandle w)%nat /\ intervals w = [h]
  | None => intervals w = []
  end.

(** World [w'] has the timer state of world [w]: the same ref, the same
    live intervals, the same next handle. *)
Definition sameTimer (w w' : World) : Prop :=
  eliminationTimerRef w' = eliminationTimerRef w /\
  intervals w' = intervals w /\
  nextHandle w' = nextHandle w.

(** Between [w] and [w'] exactly the calls [t] were made. *)
Definition emits (w w' : World) (t : list Call) : Prop :=
  trace w' = (trace w ++ t)%list.

(** What holds of the component between two events. *)
Definition consistent (s : App) : Prop :=
  JsMap.wf (fingers s) /\
  coherent (world s) /\
  timerRunning (world s) = (1 <? JsMap.size (fingers s))%nat.

(** The world after [n] more calls of [Math.random()]. *)
Definition afterRandom (n : nat) (w : World) : World :=
  mkWorld (winnerId w) (bgColor w) (eliminationTimerRef w) (intervals w)
          (nextHandle w) (n + randomCalls w) (nowCalls w) (trace w).

(** The first colour of [cs] that is not in use, with its position. *)
Fixpoint firstFree (existing : list string) (cs : list string)
  : option (nat * string) :=
  match cs with
  | [] => None
  | c :: cs' =>
      if Set_has existing c
      then match firstFree existing cs' with
           | Some (i, c') => Some (S i, c')
           | None => None
           end
      else Some (O, c)
  end.

(** The number of occurrences of the comma in a string. *)
Fixpoint commas (s : string) : nat :=
  match s with
  | EmptyString => O
  | String a s' =>
      if Ascii.eqb a "," then S (commas s') else commas s'
  end.

(** The registry operations of a replayed history. *)
Inductive Op : Type :=
| Upsert (id clientX clientY : Z)
| Remove (id : Z).

(** Whether [k] is registered after a history, read off the history alone:
    the most recent operation on [k] decides ([past] is newest first). *)
Fixpoint registered (past : list Op) (k : Z) : bool :=
  match past with
  | [] => false
  | Upsert k' _ _ :: past' => if Z.eqb k' k then true else registered past' k
  | Remove k' :: past' => if Z.eqb k' k then false else registered past' k
  end.

(** The adds of an id that is not registered at that time. *)
Fixpoint freshAdds (past ops : list Op) : nat :=
  match ops with
  | [] => O
  | Upsert k cx cy :: ops' =>
      ((if registered past k then 0 else 1)
       + freshAdds (Upsert k cx cy :: past) ops')%nat
  | Remove k :: ops' => freshAdds (Remove k :: past) ops'
  end.

(** The removes of an id that is registered at that time. *)
Fixpoint presentRemoves (past ops : list Op) : nat :=
  match ops with
  | [] => O
  | Upsert k cx cy :: ops' => presentRemoves (Upsert k cx cy :: past) ops'
  | Remove k :: ops' =>
      ((if registered past k then 1 else 0)
       + presentRemoves (Remove k :: past) ops')%nat
  end.

Section Vocabulary.

Variable random : nat -> Q.
Variable clock : nat -> Z.

(** The colour of the [i]-th iteration of the loop of
    [randomUniqueColor] started in world [w]. *)
Definition candidate (w : World) (i : nat) : string :=
  let k := (3 * i + randomCalls w)%nat in
  hsl (Math_floor_mul (random k) 360)
      (70 + Math_floor_mul (random (S k)) 15)
      (45 + Math_floor_mul (random (S (S k))) 8).

Definition candidates (n : nat) (w : World) : list string :=
  map (candidate w) (seq 0 n).

(** The colour returned after thirty collisions. *)
Definition fallbackColor (w : World) : string :=
  hsl (Math_floor_mul (random (90 + randomCalls w)%nat) 360) 75 50.

(** The finger a tick in world [w] selects from [prev], and the fingers
    it leaves. *)
Definition loserOf (prev : FingerMap) (w : World) : option Z :=
  Array_at (JsMap.keys prev)
           (Math_floor_mul (random (randomCalls w))
                           (Z.of_nat (List.length (JsMap.keys prev)))).

Definition survivors (prev : FingerMap) (w : World) : FingerMap :=
  match loserOf prev w with
  | Some k => JsMap.delete prev k
  | None => prev
  end.

Definition applyOp (st : FingerMap * World) (op : Op)
  : FingerMap * World :=
  match op with
  | Upsert k cx cy => upsertFinger random clock k cx cy (fst st) (snd st)
  | Remove k => removeFinger k (fst st) (snd st)
  end.

Definition replay (st : FingerMap * World) (ops : list Op)
  : FingerMap * World :=
  fold_left applyOp ops st.

End Vocabulary.

(** ** Sample inputs *)

Definition world0 : World := mkWorld None DEFAULT_BG None [] 1 0 0 [].

(** A world in which the interval with handle 1 is live. *)
Definition world_ticking : World :=
  mkWorld None DEFAULT_BG (Some 1%nat) [1%nat] 2 0 0 [].

Definition finger_a : Finger := mkFinger 1 10 20 "hsl(0 70% 45%)" 0.
Definition finger_b : Finger := mkFinger 2 30 40 "hsl(120 75% 50%)" 1.
Definition finger_c : Finger := mkFinger 3 50 60 "hsl(240 80% 47%)" 2.

Definition one_finger : FingerMap := [(1, finger_a)].
Definition two_fingers : FingerMap := [(1, finger_a); (2, finger_b)].
Definition three_fingers : FingerMap :=
  [(1, finger_a); (2, finger_b); (3, finger_c)].

Definition touch_at (k cx cy : Z) : PointerEvent :=
  mkPointerEvent k cx cy Touch 0 true.

Definition random_zero : nat -> Q := fun _ => 0%Q.
Definition random_half : nat -> Q := fun _ => (1 # 2)%Q.


Definition clock_count : nat -> Z := fun n => Z.of_nat n.

(** Two fingers down, the timer running; three fingers down.  In both the
    listeners of the latest render are attached. *)
Definition two_touching : App :=
  run random_zero clock_count mount
      [PointerDown (touch_at 1 10 20); PointerDown (touch_at 2 30 40);
       ListenersAttached].

Definition three_touching : App :=
  run random_zero clock_count mount
      [PointerDown (touch_at 1 10 20); PointerDown (touch_at 2 30 40);
       PointerDown (touch_at 3 50 60); ListenersAttached].

(** The state after the tick on two fingers: finger 2 is the winner. *)
Definition winner_declared : App :=
  dispatch random_zero clock_count two_touching (IntervalFired 1).

(** Two fingers down and their listeners attached, then the tick that
    eliminates finger 1: the attached listeners are still those of the
    render with both fingers, as the effect that replaces them has not run
    yet. *)
Definition eliminated_still_listening : App :=
  run random_zero clock_count mount
      [PointerDown (touch_at 1 10 20); PointerDown (touch_at 2 30 40);
       ListenersAttached; IntervalFired 1].

(** ** The render *)

(** [winnerId === f.id]. *)
Definition isWinner (w : option Z) (f : Finger) : bool :=
  match w with
  | Some k => Z.eqb k (id f)
  | None => false
  end.

(** What the returned JSX shows of the state: the background, whether the
    title block is there ([fingers.size === 0]), and one ring per finger in
    the order of [fingers.values()], each with its finger and whether it
    carries the pulsing halo of the winner. *)
Record View : Type := mkView {
  background : string;
  titleShown : bool;
  rings : list (Finger * bool)
}.

Definition render (s : App) : View :=
  mkView (bgColor (world s))
         (JsMap.size (fingers s) =? 0)%nat
         (map (fun f => (f, isWinner (winnerId (world s)) f))
              (JsMap.values (fingers s))).

(** ** More vocabulary *)

(** The number of occurrences of a character in a string. *)
Fixpoint occurrences (c : ascii) (s : string) : nat :=
  match s with
  | EmptyString => O
  | String a s' =>
      if Ascii.eqb a c then S (occurrences c s') else occurrences c s'
  end.

(** The characters of the decimal notation of an integer. *)
Definition decimalChar (a : ascii) : bool :=
  match occurrences a "0123456789-" with
  | O => false
  | S _ => true
  end.

(** Every entry of the registry is filed under the id of its finger. *)
Definition keyedById (m : FingerMap) : Prop :=
  forall (k : Z) (f : Finger), In (k, f) m -> id f = k.

(** The rationals that are finite doubles: a significand of at most 53 bits
    times a power of two between [2 ^ -1074] and [2 ^ 971]. *)
Definition isDouble (x : Q) : Prop :=
  exists m k : Z,
    Z.abs m < 2 ^ 53 /\
    ((0 <= k <= 971 /\ (x == inject_Z (m * 2 ^ k))%Q) \/
     (0 <= k <= 1074 /\ (x == m # Z.to_pos (2 ^ k))%Q)).

(** Every value of the random source is what [Math.random()] can return: a
    double that is at least 0 and less than 1. *)
Definition inRange (random : nat -> Q) : Prop :=
  forall n : nat,
    isDouble (random n) /\ (0 <= random n)%Q /\ (random n < 1)%Q.

(** The double [m * 2 ^ e] as a rational. *)
Definition ofBinary (m e : Z) : Q :=
  if 0 <=? e then inject_Z (m * 2 ^ e) else m # Z.to_pos (2 ^ (- e)).

(** [Math.floor(r * n)] for the double [r = m * 2 ^ e], with the product
    taken by the IEEE 754 multiplication of the Standard Library. *)
Definition referenceFloorMul (m e n : Z) : Z :=
  match SpecFloat.SFmul 53 1024
          (SpecFloat.S754_finite false (Z.to_pos m) e)
          (SpecFloat.S754_finite false (Z.to_pos n) 0) with
  | SpecFloat.S754_finite false m' e' => Z.shiftl (Z.pos m') e'
  | SpecFloat.S754_finite true m' e' => Z.shiftl (Z.neg m') e'
  | _ => 0
  end.

(** Doubles in the unit interval, each with a multiplier: near a tie, just
    below a multiple of [1 / n], at both ends of the range, subnormal. *)
Definition roundingSamples : list (Z * Z * Z) :=
  [(6004799503160661, -53, 3); (7505999378950826, -53, 6);
   (7205759403792793, -58, 360); (7205759403792793, -57, 360);
   (9007199254740991, -53, 2); (9007199254740991, -53, 3);
   (9007199254740991, -53, 5); (9007199254740991, -53, 7);
   (9007199254740991, -53, 8); (9007199254740991, -53, 15);
   (9007199254740991, -53, 360); (3752999689475413, -52, 6);
   (4503599627370495, -52, 6); (1, -1, 3); (1, -1, 360);
   (5629499534213120, -53, 360); (1, -1074, 3); (3, -1074, 3);
   (4503599627370497, -1074, 3)].

(** What holds of the mounted component between two events, beyond
    [consistent]. *)
Definition tidy (s : App) : Prop :=
  consistent s /\
  keyedById (fingers s) /\
  bgColor (world s) = DEFAULT_BG /\
  (fingers s = [] -> winnerId (world s) = None).

(** Finger [f'] is finger [f] but for its position. *)
Definition sameIdentity (f f' : Finger) : Prop :=
  id f' = id f /\ color f' = color f /\ createdAt f' = createdAt f.

Section Drivers.

Variable random : nat -> Q.
Variable clock : nat -> Z.

(** The running interval fires once. *)
Definition fireTimer (s : App) : App :=
  match eliminationTimerRef (world s) with
  | Some h => dispatch random clock s (IntervalFired h)
  | None => s
  end.

(** The running interval fires [n] times in a row. *)
Definition ticks (n : nat) (s : App) : App :=
  Nat.iter n fireTimer s.

End Drivers.

(** * Properties *)

(** ** The map operations *)

Module JsMapFacts.
Import JsMap.

Lemma has_In (m : FingerMap) (k : Z) :
  has m k = true <-> In k (keys m).
Proof.
  induction m as [|[k' v] m IH]; simpl.
  - split; [discriminate | tauto].
  - destruct (Z.eqb_spec k' k) as [->|Hne].
    + split; auto.
    + rewrite IH. split; [tauto | intros [H|H]; [contradiction | exact H]].
Qed.

Lemma has_false_In (m : FingerMap) (k : Z) :
  has m k = false <-> ~ In k (keys m).
Proof.
  rewrite <- has_In. destruct (has m k); split; congruence.
Qed.

Lemma has_get (m : FingerMap) (k : Z) :
  has m k = true -> exists f, get m k = Some f.
Proof.
  induction m as [|[k' v] m IH]; simpl; [discriminate|].
  destruct (Z.eqb k' k); eauto.
Qed.

Lemma get_has_false (m : FingerMap) (k : Z) :
  has m k = false -> get m k = None.
Proof.
  induction m as [|[k' v] m IH]; simpl; [reflexivity|].
  destruct (Z.eqb k' k); [discriminate | exact IH].
Qed.

Lemma set_absent (m : FingerMap) (k : Z) (v : Finger) :
  has m k = false -> set m k v = (m ++ [(k, v)])%list.
Proof.
  induction m as [|[k' v'] m IH]; simpl; [reflexivity|].
  destruct (Z.eqb k' k); [discriminate|].
  intros H. now rewrite IH.
Qed.

Lemma keys_set_present (m : FingerMap) (k : Z) (v : Finger) :
  has m k = true -> keys (set m k v) = keys m.
Proof.
  induction m as [|[k' v'] m IH]; simpl; [discriminate|].
  destruct (Z.eqb_spec k' k) as [->|Hne]; simpl; [reflexivity|].
  intros H. f_equal. now apply IH.
Qed.

Lemma size_set_present (m : FingerMap) (k : Z) (v : Finger) :
  has m k = true -> size (set m k v) = size m.
Proof.
  intros H. unfold size.
  rewrite <- (length_map fst (set m k v)), <- (length_map fst m).
  fold (keys (set m k v)). fold (keys m). now rewrite keys_set_present.
Qed.

Lemma get_set_same (m : FingerMap) (k : Z) (v : Finger) :
  get (set m k v) k = Some v.
Proof.
  induction m as [|[k' v'] m IH]; simpl.
  - now rewrite Z.eqb_refl.
  - destruct (Z.eqb_spec k' k) as [->|Hne]; simpl.
    + now rewrite Z.eqb_refl.
    + destruct (Z.eqb_spec k' k); [contradiction | exact IH].
Qed.

Lemma get_set_other (m : FingerMap) (k k' : Z) (v : Finger) :
  k' <> k -> get (set m k v) k' = get m k'.
Proof.
  intros Hne. induction m as [|[k0 v0] m IH]; simpl.
  - destruct (Z.eqb_spec k k'); [congruence | reflexivity].
  - destruct (Z.eqb_spec k0 k) as [->|Hne0]; simpl.
    + destruct (Z.eqb_spec k k'); [congruence | reflexivity].
    + now rewrite IH.
Qed.

Lemma has_set_same (m : FingerMap) (k : Z) (v : Finger) :
  has (set m k v) k = true.
Proof.
  induction m as [|[k' v'] m IH]; simpl.
  - now rewrite Z.eqb_refl.
  - destruct (Z.eqb_spec k' k) as [->|Hne]; simpl.
    + now rewrite Z.eqb_refl.
    + destruct (Z.eqb_spec k' k); [contradiction | exact IH].
Qed.

Lemma has_set_other (m : FingerMap) (k k' : Z) (v : Finger) :
  k' <> k -> has (set m k v) k' = has m k'.
Proof.
  intros Hne. induction m as [|[k0 v0] m IH]; simpl.
  - destruct (Z.eqb_spec k k'); [congruence | reflexivity].
  - destruct (Z.eqb_spec k0 k) as [->|Hne0]; simpl.
    + destruct (Z.eqb_spec k k'); [congruence | reflexivity].
    + now rewrite IH.
Qed.

Lemma delete_absent (m : FingerMap) (k : Z) :
  has m k = false -> delete m k = m.
Proof.
  induction m as [|[k' v'] m IH]; simpl; [reflexivity|].
  destruct (Z.eqb k' k); [discriminate|].
  intros H. now rewrite IH.
Qed.

Lemma size_delete_present (m : FingerMap) (k : Z) :
  has m k = true -> S (size (delete m k)) = size m.
Proof.
  induction m as [|[k' v'] m IH]; simpl; [discriminate|].
  destruct (Z.eqb k' k); simpl; [reflexivity|].
  intros H. unfold size in *. now rewrite IH.
Qed.

Lemma get_delete_other (m : FingerMap) (k k' : Z) :
  k' <> k -> get (delete m k) k' = get m k'.
Proof.
  intros Hne. induction m as [|[k0 v0] m IH]; simpl; [reflexivity|].
  destruct (Z.eqb_spec k0 k) as [->|Hne0]; simpl.
  - destruct (Z.eqb_spec k k'); [congruence | reflexivity].
  - now rewrite IH.
Qed.

Lemma has_delete_other (m : FingerMap) (k k' : Z) :
  k' <> k -> has (delete m k) k' = has m k'.
Proof.
  intros Hne. induction m as [|[k0 v0] m IH]; simpl; [reflexivity|].
  destruct (Z.eqb_spec k0 k) as [->|Hne0]; simpl.
  - destruct (Z.eqb_spec k k'); [congruence | reflexivity].
  - now rewrite IH.
Qed.

Lemma In_keys_delete (m : FingerMap) (k k' : Z) :
  In k' (keys (delete m k)) -> In k' (keys m).
Proof.
  induction m as [|[k0 v0] m IH]; simpl; [tauto|].
  destruct (Z.eqb k0 k); simpl; tauto.
Qed.

Lemma wf_delete (m : FingerMap) (k : Z) : wf m -> wf (delete m k).
Proof.
  unfold wf. induction m as [|[k0 v0] m IH]; simpl; [auto|].
  intros H. inversion H as [|? ? Hnin Hnd]; subst.
  destruct (Z.eqb k0 k); simpl; [exact Hnd|].
  constructor; [|auto].
  intros Hin. apply Hnin. eapply In_keys_delete, Hin.
Qed.

Lemma has_delete_same (m : FingerMap) (k : Z) :
  wf m -> has (delete m k) k = false.
Proof.
  unfold wf. induction m as [|[k0 v0] m IH]; simpl; [reflexivity|].
  intros H. inversion H as [|? ? Hnin Hnd]; subst.
  destruct (Z.eqb_spec k0 k) as [->|Hne]; simpl.
  - now apply has_false_In.
  - destruct (Z.eqb_spec k0 k); [contradiction | auto].
Qed.

Lemma wf_set (m : FingerMap) (k : Z) (v : Finger) : wf m -> wf (set m k v).
Proof.
  intros H. destruct (has m k) eqn:E.
  - unfold wf. now rewrite keys_set_present.
  - rewrite set_absent by exact E. unfold wf, keys in *.
    rewrite map_app. simpl. apply NoDup_app; [exact H | | ].
    + constructor; [simpl; tauto | constructor].
    + intros a Ha [<-|[]]. apply has_false_In in E. now apply E.
Qed.

Lemma nth_error_keys_has (m : FingerMap) (i : nat) (k : Z) :
  nth_error (keys m) i = Some k -> has m k = true.
Proof.
  intros H. apply has_In. eapply nth_error_In, H.
Qed.

End JsMapFacts.

(** ** The colour allocator *)

Section ColorAllocator.

Variable random : nat -> Q.

Lemma afterRandom_0 (w : World) : afterRandom 0 w = w.
Proof. now destruct w. Qed.

Lemma afterRandom_add (a b : nat) (w : World) :
  afterRandom a (afterRandom b w) = afterRandom (a + b) w.
Proof.
  unfold afterRandom; simpl. f_equal. lia.
Qed.

Lemma candidate_shift (w : World) (i : nat) :
  candidate random w (S i) = candidate random (afterRandom 3 w) i.
Proof.
  unfold candidate. cbn [afterRandom randomCalls].
  replace (3 * S i + randomCalls w)%nat
    with (3 * i + (3 + randomCalls w))%nat by lia.
  reflexivity.
Qed.

Lemma candidates_S (n : nat) (w : World) :
  candidates random (S n) w
  = candidate random w 0 :: candidates random n (afterRandom 3 w).
Proof.
  unfold candidates. cbn [seq map]. f_equal.
  rewrite <- seq_shift, map_map.
  apply map_ext. intros i. apply candidate_shift.
Qed.

Lemma candidates_length (n : nat) (w : World) :
  List.length (candidates random n w) = n.
Proof.
  unfold candidates. now rewrite length_map, length_seq.
Qed.

Lemma randomUniqueColor_from_S (existing : list string) (n : nat)
      (w : World) :
  randomUniqueColor_from random (S n) existing w
  = if Set_has existing (candidate random w 0)
    then randomUniqueColor_from random n existing (afterRandom 3 w)
    else (candidate random w 0, afterRandom 3 w).
Proof.
  destruct w as [wi bg ref ivs nh rc nc tr].
  unfold candidate, afterRandom. cbn.
  unfold bind, Math_random, ret. cbn.
  match goal with
  | |- context [Set_has ?e ?c] => destruct (Set_has e c)
  end; reflexivity.
Qed.

(** The loop with [n] iterations left returns the first candidate that is
    not in use and has then called [Math.random()] three times per
    candidate drawn; when all [n] candidates are in use it makes one more
    call for the hue of the fallback colour. *)
Lemma randomUniqueColor_from_firstFree (existing : list string) (n : nat) :
  forall w : World,
    randomUniqueColor_from random n existing w
    = match firstFree existing (candidates random n w) with
      | Some (i, c) => (c, afterRandom (3 * S i) w)
      | None =>
          (hsl (Math_floor_mul (random (3 * n + randomCalls w)%nat) 360)
               75 50,
           afterRandom (3 * n + 1) w)
      end.
Proof.
  induction n as [|n IH]; intros w.
  - destruct w; reflexivity.
  - rewrite randomUniqueColor_from_S, candidates_S. cbn [firstFree].
    destruct (Set_has existing (candidate random w 0)); [|reflexivity].
    rewrite IH.
    destruct (firstFree existing (candidates random n (afterRandom 3 w)))
      as [[i c]|].
    + rewrite afterRandom_add. do 2 f_equal. lia.
    + rewrite afterRandom_add. cbn [afterRandom randomCalls].
      replace (3 * n + (3 + randomCalls w))%nat
        with (3 * S n + randomCalls w)%nat by lia.
      do 2 f_equal. lia.
Qed.

Lemma firstFree_Some (existing cs : list string) (i : nat) (c : string) :
  firstFree existing cs = Some (i, c) ->
  nth_error cs i = Some c /\
  Set_has existing c = false /\
  forallb (Set_has existing) (firstn i cs) = true.
Proof.
  revert i. induction cs as [|c0 cs IH]; intros i; cbn; [discriminate|].
  destruct (Set_has existing c0) eqn:E.
  - destruct (firstFree existing cs) as [[j c']|]; [|discriminate].
    intros [= <- <-]. cbn. rewrite E. now apply IH.
  - intros [= <- <-]. cbn. auto.
Qed.

Lemma firstFree_None (existing cs : list string) :
  firstFree existing cs = None ->
  forallb (Set_has existing) cs = true.
Proof.
  induction cs as [|c0 cs IH]; cbn; [reflexivity|].
  destruct (Set_has existing c0); [|discriminate].
  destruct (firstFree existing cs) as [[j c']|]; [discriminate | auto].
Qed.

End ColorAllocator.

(** C7. The colour allocator draws at most thirty candidate colours, each
    from three calls of [Math.random()] (hue below 360, saturation from
    70, lightness from 45).  It returns the first candidate that is not in
    use, having drawn no further candidate; when all thirty candidates are in
    use it returns a colour with one more random hue and fixed saturation
    and lightness.  It returns a colour in every case, and the colour of the
    last case can be one that is in use. *)
Theorem randomUniqueColor_first_free_or_fallback :
  (forall (random : nat -> Q) (existing : list string) (w : World),
      let cs := candidates random 30 w in
      List.length cs = 30%nat /\
      match firstFree existing cs with
      | Some (i, c) =>
          (i < 30)%nat /\
          nth_error cs i = Some c /\
          Set_has existing c = false /\
          forallb (Set_has existing) (firstn i cs) = true /\
          randomUniqueColor random existing w
          = (c, afterRandom (3 * S i) w)
      | None =>
          forallb (Set_has existing) cs = true /\
          randomUniqueColor random existing w
          = (fallbackColor random w, afterRandom 91 w)
      end) /\
  (exists (random : nat -> Q) (existing : list string) (w : World),
      Set_has existing (fst (randomUniqueColor random existing w)) = true).
Proof.
  split.
  - intros random existing w cs.
    split; [apply candidates_length|].
    unfold randomUniqueColor.
    rewrite randomUniqueColor_from_firstFree. fold cs.
    destruct (firstFree existing cs) as [[i c]|] eqn:E.
    + destruct (firstFree_Some _ _ _ _ E) as (Hn & Hc & Hb).
      repeat split; auto.
      rewrite <- (candidates_length random 30 w). fold cs.
      apply nth_error_Some. congruence.
    + split; [now apply firstFree_None | reflexivity].
  - exists (fun _ => 0%Q),
      ["hsl(0 70% 45%)"; "hsl(0 75% 50%)"],
      (mkWorld None DEFAULT_BG None [] 1 0 0 []).
    vm_compute. reflexivity.
Qed.

(** ** The registry operations *)

Lemma trace_since (w w' : World) (t : list Call) :
  trace w' = (trace w ++ t)%list -> since w w' = t.
Proof.
  intros H. unfold since. rewrite H, skipn_app, skipn_all, Nat.sub_diag.
  reflexivity.
Qed.

Lemma since_refl (w : World) : since w w = [].
Proof.
  unfold since. apply skipn_all.
Qed.

Lemma randomUniqueColor_world (random : nat -> Q) (existing : list string)
      (w : World) :
  exists n : nat,
    snd (randomUniqueColor random existing w) = afterRandom n w.
Proof.
  unfold randomUniqueColor. rewrite randomUniqueColor_from_firstFree.
  destruct (firstFree existing (candidates random 30 w)) as [[i c]|];
    eexists; reflexivity.
Qed.

(** C5. [upsertFinger] on an id that is registered replaces the position of
    that finger and nothing else: same keys in the same order, same id,
    colour and creation time, every other finger untouched, no call on any
    collaborator.  On an id that is not registered it appends one finger
    with the given position, the colour [randomUniqueColor] allocates
    against the colours in use and the current time, and plays the "add"
    sound once. *)
Theorem upsertFinger_moves_or_creates
        (random : nat -> Q) (clock : nat -> Z)
        (k cx cy : Z) (prev : FingerMap) (w : World) :
  let (next, w') := upsertFinger random clock k cx cy prev w in
  if JsMap.has prev k then
    (exists f : Finger,
        JsMap.get prev k = Some f /\
        JsMap.get next k
        = Some (mkFinger (id f) cx cy (color f) (createdAt f))) /\
    JsMap.keys next = JsMap.keys prev /\
    JsMap.size next = JsMap.size prev /\
    (forall k' : Z, k' <> k -> JsMap.get next k' = JsMap.get prev k') /\
    w' = w
  else
    let (c, w1) :=
      randomUniqueColor random (map color (JsMap.values prev)) w in
    next = (prev ++ [(k, mkFinger k cx cy c (clock (nowCalls w)))])%list /\
    JsMap.size next = S (JsMap.size prev) /\
    trace w' = (trace w ++ [PlaySound SoundAdd])%list /\
    winnerId w' = winnerId w /\
    eliminationTimerRef w' = eliminationTimerRef w /\
    intervals w' = intervals w.
Proof.
  unfold upsertFinger.
  destruct (JsMap.has prev k) eqn:E.
  - destruct (JsMapFacts.has_get _ _ E) as [f Hf]. rewrite Hf.
    unfold ret.
    split; [exists f; split; [reflexivity | apply JsMapFacts.get_set_same]|].
    split; [now apply JsMapFacts.keys_set_present|].
    split; [now apply JsMapFacts.size_set_present|].
    split; [intros k' Hk'; now apply JsMapFacts.get_set_other | reflexivity].
  - unfold bind.
    destruct (randomUniqueColor_world random
                (map color (JsMap.values prev)) w) as [n Hn].
    destruct (randomUniqueColor random (map color (JsMap.values prev)) w)
      as [c w1].
    cbn in Hn. subst w1. cbn.
    rewrite JsMapFacts.set_absent by exact E.
    repeat split.
    unfold JsMap.size. rewrite length_app. cbn. lia.
Qed.

(** C6. [removeFinger] on a registered id deletes exactly that finger and
    plays the "remove" sound if and only if a finger remains, so not on the
    removal that empties the registry; on an id that is not registered it
    returns the registry as it is and calls no collaborator. *)
Theorem removeFinger_deletes_or_ignores
        (k : Z) (prev : FingerMap) (w : World) (Hwf : JsMap.wf prev) :
  let (next, w') := removeFinger k prev w in
  if JsMap.has prev k then
    JsMap.has next k = false /\
    S (JsMap.size next) = JsMap.size prev /\
    (forall k' : Z, k' <> k -> JsMap.get next k' = JsMap.get prev k') /\
    since w w'
    = (if (1 <=? JsMap.size next)%nat then [PlaySound SoundRemove] else []) /\
    winnerId w' = winnerId w /\
    eliminationTimerRef w' = eliminationTimerRef w /\
    intervals w' = intervals w
  else
    next = prev /\ w' = w.
Proof.
  unfold removeFinger.
  destruct (JsMap.has prev k) eqn:E; cbn [negb]; [|split; reflexivity].
  pose proof (JsMapFacts.size_delete_present _ _ E) as Hsz.
  pose proof (JsMapFacts.has_delete_same _ k Hwf) as Hhas.
  pose proof (fun k' H => JsMapFacts.get_delete_other prev k k' H) as Hget.
  unfold bind, when, ret.
  destruct (JsMap.size (JsMap.delete prev k)) as [|n] eqn:En;
    cbn; rewrite ?En; cbn.
  - repeat split; auto using since_refl.
  - repeat split; auto. now apply trace_since.
Qed.

(** C6, at a registry of two fingers: removing one of them. *)
Lemma removeFinger_deletes_or_ignores_witness :
  JsMap.wf two_fingers /\
  since world0 (snd (removeFinger 1 two_fingers world0))
  = [PlaySound SoundRemove] /\
  fst (removeFinger 1 two_fingers world0) = [(2, finger_b)].
Proof.
  assert (Hwf : JsMap.wf two_fingers).
  { unfold JsMap.wf. cbn. repeat constructor; cbn; intuition discriminate. }
  split; [exact Hwf|].
  pose proof (removeFinger_deletes_or_ignores 1 two_fingers world0 Hwf) as H.
  cbn in H. destruct H as (_ & _ & _ & Hs & _).
  split; [exact Hs | reflexivity].
Defined.

(** ** The dependency string of the reconciliation effect *)

Section DependencyString.

Lemma commas_app (s1 s2 : string) :
  commas (s1 ++ s2) = (commas s1 + commas s2)%nat.
Proof.
  induction s1 as [|a s1 IH]; cbn; [reflexivity|].
  destruct (Ascii.eqb a ","); cbn; now rewrite IH.
Qed.

Lemma commas_uint (d : Decimal.uint) :
  commas (NilEmpty.string_of_uint d) = 0%nat.
Proof.
  induction d; cbn; auto.
Qed.

Lemma commas_Number (n : Z) : commas (Number_toString n) = 0%nat.
Proof.
  unfold Number_toString, NilZero.string_of_int, NilZero.string_of_uint.
  destruct (Z.to_int n) as [d|d]; destruct d; cbn;
    auto using commas_uint.
Qed.

Lemma Number_nonempty (n : Z) : Number_toString n <> "".
Proof.
  unfold Number_toString, NilZero.string_of_int, NilZero.string_of_uint.
  destruct (Z.to_int n) as [d|d]; destruct d; cbn; discriminate.
Qed.

Lemma append_nonempty (s1 s2 : string) : s1 <> "" -> s1 ++ s2 <> "".
Proof.
  destruct s1; cbn; [congruence | discriminate].
Qed.

Lemma Array_toString_cons (k : Z) (l : list Z) :
  l <> [] ->
  Array_toString (k :: l)
  = Number_toString k ++ "," ++ Array_toString l.
Proof.
  destruct l; [congruence | reflexivity].
Qed.

Lemma Array_toString_nonempty (l : list Z) :
  l <> [] -> Array_toString l <> "".
Proof.
  destruct l as [|k l]; [congruence|]. intros _.
  destruct l as [|k' l]; [apply Number_nonempty|].
  rewrite Array_toString_cons by discriminate.
  apply append_nonempty, Number_nonempty.
Qed.

(** An array of [n + 1] integers prints with [n] commas. *)
Lemma commas_Array_toString (k : Z) (l : list Z) :
  commas (Array_toString (k :: l)) = List.length l.
Proof.
  revert k. induction l as [|k' l IH]; intros k.
  - apply commas_Number.
  - rewrite Array_toString_cons by discriminate.
    rewrite !commas_app, commas_Number, IH. reflexivity.
Qed.

Lemma Array_toString_length (l l' : list Z) :
  Array_toString l = Array_toString l' -> List.length l = List.length l'.
Proof.
  intros H. destruct l as [|k l], l' as [|k' l']; [reflexivity | | |].
  - symmetry in H. now apply Array_toString_nonempty in H.
  - now apply Array_toString_nonempty in H.
  - apply (f_equal commas) in H.
    rewrite !commas_Array_toString in H. cbn. now rewrite H.
Qed.

(** Two registries with the same dependency string have the same size:
    a change of size always runs the reconciliation effect. *)
Lemma timerDep_size (m m' : FingerMap) :
  timerDep m = timerDep m' -> JsMap.size m = JsMap.size m'.
Proof.
  unfold timerDep. intros H. apply Array_toString_length in H.
  unfold JsMap.keys in H. now rewrite !length_map in H.
Qed.

End DependencyString.

(** ** Calls and timer state of the building blocks *)

Lemma sounds_app (t1 t2 : list Call) :
  sounds (t1 ++ t2) = (sounds t1 ++ sounds t2)%list.
Proof.
  induction t1 as [|[] t1 IH]; cbn; now rewrite ?IH.
Qed.

Lemma winnerSets_app (t1 t2 : list Call) :
  winnerSets (t1 ++ t2) = (winnerSets t1 ++ winnerSets t2)%list.
Proof.
  induction t1 as [|[] t1 IH]; cbn; now rewrite ?IH.
Qed.

Lemma emits_nil (w : World) : emits w w [].
Proof.
  unfold emits. now rewrite app_nil_r.
Qed.

Lemma emits_trans (w w1 w2 : World) (t1 t2 : list Call) :
  emits w w1 t1 -> emits w1 w2 t2 -> emits w w2 (t1 ++ t2).
Proof.
  unfold emits. intros H1 H2. now rewrite H2, H1, app_assoc.
Qed.

Lemma emits_since (w w' : World) (t : list Call) :
  emits w w' t -> since w w' = t.
Proof.
  apply trace_since.
Qed.

Lemma sameTimer_refl (w : World) : sameTimer w w.
Proof.
  repeat split.
Qed.

Lemma sameTimer_coherent (w w' : World) :
  sameTimer w w' -> coherent w -> coherent w'.
Proof.
  unfold sameTimer, coherent. intros (-> & -> & ->). tauto.
Qed.

Lemma sameTimer_running (w w' : World) :
  sameTimer w w' -> timerRunning w' = timerRunning w.
Proof.
  unfold sameTimer, timerRunning. now intros (_ & -> & _).
Qed.

Lemma without_only (h : nat) : without h [h] = [].
Proof.
  unfold without. cbn. now rewrite Nat.eqb_refl.
Qed.

(** Clearing the timer plays nothing and sets no winner. *)
Lemma clearEliminationTimer_calls (w : World) :
  let w' := snd (clearEliminationTimer w) in
  winnerId w' = winnerId w /\
  exists t : list Call,
    emits w w' t /\ sounds t = [] /\ winnerSets t = [].
Proof.
  destruct w as [wi bg [[|h]|] ivs nh rc nc tr]; cbn;
    (split; [reflexivity|]).
  - exists []. split; [apply emits_nil | auto].
  - exists [ClearInterval (S h)]. repeat split.
  - exists []. split; [apply emits_nil | auto].
Qed.

(** In a coherent world clearing the timer leaves no interval alive. *)
Lemma clearEliminationTimer_stops (w : World) :
  coherent w ->
  let w' := snd (clearEliminationTimer w) in
  eliminationTimerRef w' = None /\
  intervals w' = [] /\
  nextHandle w' = nextHandle w.
Proof.
  destruct w as [wi bg [[|h]|] ivs nh rc nc tr]; unfold coherent;
    cbn -[without].
  - intros (_ & H & _). lia.
  - intros (_ & _ & ->). rewrite without_only. auto.
  - intros (_ & ->). auto.
Qed.

Lemma clearEliminationTimer_coherent (w : World) :
  coherent w -> coherent (snd (clearEliminationTimer w)).
Proof.
  intros H. destruct (clearEliminationTimer_stops w H) as (Hr & Hi & Hn).
  unfold coherent. rewrite Hr, Hi, Hn. split; [apply H | reflexivity].
Qed.

(** The reconciliation effect plays no sound, and calls [setWinnerId] only
    to clear the winner of an empty registry. *)
Lemma reconcileTimer_calls (m : FingerMap) (w : World) :
  let w' := snd (reconcileTimer m w) in
  winnerId w'
  = (if (JsMap.size m =? 0)%nat then None else winnerId w) /\
  exists t : list Call,
    emits w w' t /\
    sounds t = [] /\
    winnerSets t = (if (JsMap.size m =? 0)%nat then [None] else []).
Proof.
  destruct w as [wi bg [[|h]|] ivs nh rc nc tr];
    destruct m as [|e1 [|e2 m]]; cbn -[app]; (split; [reflexivity|]);
    unfold emits; cbn -[app]; eexists;
    (split;
     [first [rewrite <- ?app_assoc; reflexivity
            | symmetry; apply app_nil_r]|]);
    cbn; auto.
Qed.

(** After the reconciliation effect the timer runs exactly when two or more
    fingers are registered. *)
Lemma reconcileTimer_timer (m : FingerMap) (w : World) :
  coherent w ->
  let w' := snd (reconcileTimer m w) in
  coherent w' /\ timerRunning w' = (1 <? JsMap.size m)%nat.
Proof.
  destruct w as [wi bg [[|h]|] ivs nh rc nc tr];
    destruct m as [|e1 [|e2 m]]; unfold coherent, timerRunning;
    cbn -[without];
    intuition (subst; rewrite ?without_only; cbn; auto; try lia).
Qed.

Section Handlers.

Variable random : nat -> Q.
Variable clock : nat -> Z.

(** [upsertFinger] keeps the registry well formed, never touches the timer
    or the winner, and plays "add" exactly for an id that was absent. *)
Lemma upsertFinger_frame (k cx cy : Z) (prev : FingerMap) (w : World) :
  let next := fst (upsertFinger random clock k cx cy prev w) in
  let w' := snd (upsertFinger random clock k cx cy prev w) in
  (JsMap.wf prev -> JsMap.wf next) /\
  sameTimer w w' /\
  winnerId w' = winnerId w /\
  emits w w' (if JsMap.has prev k then [] else [PlaySound SoundAdd]).
Proof.
  unfold upsertFinger.
  destruct (JsMap.has prev k) eqn:E.
  - destruct (JsMapFacts.has_get _ _ E) as [f ->]. cbn.
    split; [apply JsMapFacts.wf_set|].
    split; [apply sameTimer_refl|].
    split; [reflexivity | apply emits_nil].
  - unfold bind.
    destruct (randomUniqueColor_world random
                (map color (JsMap.values prev)) w) as [n Hn].
    destruct (randomUniqueColor random (map color (JsMap.values prev)) w)
      as [c w1].
    cbn in Hn. subst w1. cbn -[app].
    split; [apply JsMapFacts.wf_set|].
    repeat split.
Qed.

(** [removeFinger] keeps the registry well formed and never touches the
    timer or the winner. *)
Lemma removeFinger_frame (k : Z) (prev : FingerMap) (w : World) :
  let next := fst (removeFinger k prev w) in
  let w' := snd (removeFinger k prev w) in
  (JsMap.wf prev -> JsMap.wf next) /\
  sameTimer w w' /\
  winnerId w' = winnerId w /\
  exists t : list Call, emits w w' t /\ winnerSets t = [].
Proof.
  unfold removeFinger.
  destruct (JsMap.has prev k); cbn [negb].
  - unfold bind, when, ret.
    destruct (0 <? JsMap.size (JsMap.delete prev k))%nat; cbn -[app].
    + split; [apply JsMapFacts.wf_delete|].
      repeat split. exists [PlaySound SoundRemove]. now split.
    + split; [apply JsMapFacts.wf_delete|].
      repeat split. exists []. split; [apply emits_nil | reflexivity].
  - cbn. split; [auto|]. repeat split.
    exists []. split; [apply emits_nil | reflexivity].
Qed.

(** A tick that finds at most one finger only clears the timer. *)
Lemma eliminationTick_idle (prev : FingerMap) (w : World) :
  (JsMap.size prev <= 1)%nat ->
  eliminationTick random prev w = (prev, snd (clearEliminationTimer w)).
Proof.
  intros H. unfold eliminationTick.
  apply Nat.leb_le in H. rewrite H.
  unfold bind, ret. now destruct (clearEliminationTimer w).
Qed.

(** A tick that finds two or more fingers deletes the selected one, plays
    "remove" when a finger is left, and declares the winner and plays
    "win" when exactly one is left; it leaves the timer alone. *)
Lemma eliminationTick_live (prev : FingerMap) (w : World) :
  (2 <= JsMap.size prev)%nat ->
  let next := survivors random prev w in
  let w' := snd (eliminationTick random prev w) in
  fst (eliminationTick random prev w) = next /\
  sameTimer w w' /\
  winnerId w'
  = match next with
    | [(k, _)] => Some k
    | _ => winnerId w
    end /\
  emits w w'
        ((if (0 <? JsMap.size next)%nat then [PlaySound SoundRemove]
          else [])
           ++ match next with
              | [(k, _)] => [SetWinnerId (Some k); PlaySound SoundWin]
              | _ => []
              end).
Proof.
  intros H next.
  unfold eliminationTick.
  replace (JsMap.size prev <=? 1)%nat with false
    by (symmetry; apply Nat.leb_gt; lia).
  unfold bind.
  cbv beta iota zeta delta [Math_random].
  fold (loserOf random prev w). fold (survivors random prev w).
  fold next. clearbody next.
  destruct w as [wi bg ref ivs nh rc nc tr].
  destruct next as [|[k f] [|e2 next]];
    cbn -[app]; rewrite ?Z.eqb_refl; cbn -[app];
    unfold emits; cbn -[app]; rewrite <- ?app_assoc, ?app_nil_r;
    repeat split.
Qed.

Lemma survivors_cases (prev : FingerMap) (w : World) :
  survivors random prev w = prev \/
  exists k : Z,
    JsMap.has prev k = true /\ survivors random prev w = JsMap.delete prev k.
Proof.
  unfold survivors. destruct (loserOf random prev w) as [k|] eqn:E; [|now left].
  destruct (JsMap.has prev k) eqn:Eh.
  - right. now exists k.
  - left. now apply JsMapFacts.delete_absent.
Qed.

Lemma survivors_wf (prev : FingerMap) (w : World) :
  JsMap.wf prev -> JsMap.wf (survivors random prev w).
Proof.
  unfold survivors. destruct (loserOf random prev w); [|auto].
  apply JsMapFacts.wf_delete.
Qed.

(** A tick on two or more fingers leaves at least one. *)
Lemma survivors_size (prev : FingerMap) (w : World) :
  (2 <= JsMap.size prev)%nat ->
  (1 <= JsMap.size (survivors random prev w))%nat.
Proof.
  intros H. destruct (survivors_cases prev w) as [->|(k & Hk & ->)];
    [lia|].
  apply JsMapFacts.size_delete_present in Hk. lia.
Qed.

End Handlers.

(** ** One turn of the event loop *)

Section EventLoop.

Variable random : nat -> Q.
Variable clock : nat -> Z.

Lemma commit_cases (s : App) (update : M FingerMap) :
  let next := fst (update (world s)) in
  let w1 := snd (update (world s)) in
  (timerDep (fingers s) = timerDep next /\
   commit s update = mkApp next w1 (listening s)) \/
  (timerDep (fingers s) <> timerDep next /\
   commit s update
   = mkApp next (snd (reconcileTimer next w1)) (listening s)).
Proof.
  unfold commit. destruct (update (world s)) as [next w1]. cbn.
  destruct (String.eqb_spec (timerDep (fingers s)) (timerDep next));
    [left | right]; auto.
Qed.

Lemma commit_fingers (s : App) (update : M FingerMap) :
  fingers (commit s update) = fst (update (world s)).
Proof.
  destruct (commit_cases s update) as [[_ ->]|[_ ->]]; reflexivity.
Qed.

(** An update that returns the registry and the world as they are is no
    event at all. *)
Lemma commit_ret (s : App) : commit s (ret (fingers s)) = s.
Proof.
  unfold commit, ret. rewrite String.eqb_refl. now destruct s.
Qed.

(** The render after an update adds no sound, and no call of
    [setWinnerId] other than the clearing for an empty registry. *)
Lemma commit_calls (s : App) (update : M FingerMap) (t : list Call) :
  emits (world s) (snd (update (world s))) t ->
  exists t' : list Call,
    emits (world s) (world (commit s update)) (t ++ t') /\
    sounds t' = [] /\
    (winnerSets t' = [] \/
     winnerSets t' = [None] /\ fingers (commit s update) = []).
Proof.
  intros Ht.
  destruct (commit_cases s update) as [[_ E]|[_ E]]; rewrite E; cbn.
  - exists []. rewrite app_nil_r. auto.
  - destruct (reconcileTimer_calls (fst (update (world s)))
                                   (snd (update (world s))))
      as (_ & t' & Ht' & Hs & Hw).
    exists t'. split; [eapply emits_trans; eauto|]. split; [exact Hs|].
    destruct (fst (update (world s))); cbn in Hw; auto.
Qed.

(** The winner after the render is the winner after the update, unless
    the registry is empty and the winner is cleared. *)
Lemma commit_winner (s : App) (update : M FingerMap) :
  winnerId (world (commit s update)) = winnerId (snd (update (world s)))
  \/ winnerId (world (commit s update)) = None /\
     fingers (commit s update) = [].
Proof.
  destruct (commit_cases s update) as [[_ E]|[_ E]]; rewrite E; cbn;
    [now left|].
  destruct (reconcileTimer_calls (fst (update (world s)))
                                 (snd (update (world s)))) as (Hw & _).
  rewrite Hw. destruct (fst (update (world s))); cbn; auto.
Qed.

(** An update that empties the registry clears the winner. *)
Lemma commit_empties (s : App) (update : M FingerMap) :
  fingers s <> [] ->
  fst (update (world s)) = [] ->
  winnerId (world (commit s update)) = None.
Proof.
  intros Hne Hnil.
  destruct (commit_cases s update) as [[E _]|[_ E]].
  - apply timerDep_size in E. rewrite Hnil in E.
    destruct (fingers s); [congruence | discriminate].
  - rewrite E. cbn.
    destruct (reconcileTimer_calls (fst (update (world s)))
                                   (snd (update (world s)))) as (Hw & _).
    rewrite Hw, Hnil. reflexivity.
Qed.

(** The render re-establishes the link between timer and registry size
    after an update that left the timer alone, or that was the tick of an
    idle registry. *)
Lemma consistent_commit (s : App) (update : M FingerMap) :
  consistent s ->
  JsMap.wf (fst (update (world s))) ->
  sameTimer (world s) (snd (update (world s))) \/
  ((JsMap.size (fingers s) <= 1)%nat /\
   update (world s) = (fingers s, snd (clearEliminationTimer (world s)))) ->
  consistent (commit s update).
Proof.
  intros (Hwf & Hco & Hrun) Hwf' Hupd.
  assert (Hco' : coherent (snd (update (world s)))).
  { destruct Hupd as [Hsame|[_ ->]].
    - eapply sameTimer_coherent; eauto.
    - now apply clearEliminationTimer_coherent. }
  destruct (commit_cases s update) as [[E ->]|[_ ->]];
    unfold consistent; cbn [fingers world].
  - split; [exact Hwf'|]. split; [exact Hco'|].
    apply timerDep_size in E. rewrite <- E.
    destruct Hupd as [Hsame|[Hle Heq]].
    + now rewrite (sameTimer_running _ _ Hsame).
    + rewrite Heq. cbn [fst snd].
      destruct (clearEliminationTimer_stops _ Hco) as (_ & Hi & _).
      unfold timerRunning. rewrite Hi.
      symmetry. apply Nat.ltb_ge. exact Hle.
  - split; [exact Hwf'|]. now apply reconcileTimer_timer.
Qed.

Lemma consistent_mount : consistent mount.
Proof.
  unfold consistent, mount, JsMap.wf, coherent. cbn.
  repeat split; auto. constructor.
Qed.

Lemma consistent_dispatch (s : App) (ev : Event) :
  consistent s -> consistent (dispatch random clock s ev).
Proof.
  intros Hs. pose proof Hs as (Hwf & Hco & Hrun).
  destruct ev as [e|e|e|e|h|]; cbn [dispatch]; [| | | | |exact Hs].
  - apply consistent_commit; [exact Hs | |].
    + unfold onPointerDown.
      destruct (isMouse (pointerType e) && negb (button e =? 0));
        [exact Hwf | now apply upsertFinger_frame].
    + left. unfold onPointerDown.
      destruct (isMouse (pointerType e) && negb (button e =? 0));
        [apply sameTimer_refl | apply upsertFinger_frame].
  - apply consistent_commit; [exact Hs | |].
    + unfold onPointerMove.
      destruct (negb (isPrimary e) && isMouse (pointerType e));
        [exact Hwf|].
      destruct (JsMap.has (listening s) (pointerId e));
        [now apply upsertFinger_frame | exact Hwf].
    + left. unfold onPointerMove.
      destruct (negb (isPrimary e) && isMouse (pointerType e));
        [apply sameTimer_refl|].
      destruct (JsMap.has (listening s) (pointerId e));
        [apply upsertFinger_frame | apply sameTimer_refl].
  - apply consistent_commit; [exact Hs | |].
    + now apply removeFinger_frame.
    + left. apply removeFinger_frame.
  - apply consistent_commit; [exact Hs | |].
    + now apply removeFinger_frame.
    + left. apply removeFinger_frame.
  - destruct (existsb (Nat.eqb h) (intervals (world s))); [|exact Hs].
    destruct (Nat.le_gt_cases (JsMap.size (fingers s)) 1) as [Hle|Hgt].
    + apply consistent_commit; [exact Hs | |].
      * now rewrite eliminationTick_idle.
      * right. split; [exact Hle | now apply eliminationTick_idle].
    + destruct (eliminationTick_live random (fingers s) (world s) Hgt)
        as (Hn & Hsame & _).
      apply consistent_commit; [exact Hs | |].
      * rewrite Hn. now apply survivors_wf.
      * now left.
Qed.

Lemma consistent_run (evs : list Event) (s : App) :
  consistent s -> consistent (run random clock s evs).
Proof.
  revert s. induction evs as [|ev evs IH]; intros s Hs; cbn; [exact Hs|].
  apply IH. now apply consistent_dispatch.
Qed.

End EventLoop.

(** ** The elimination timer and the registry size *)

(** C2. After every sequence of events delivered to the mounted component
    the elimination timer is running if and only if two or more fingers are
    registered.  A tick that finds at most one finger returns the registry
    as it is and leaves no timer running. *)
Theorem timer_runs_iff_two_fingers :
  (forall (random : nat -> Q) (clock : nat -> Z) (evs : list Event),
      timerRunning (world (run random clock mount evs)) = true <->
      (2 <= JsMap.size (fingers (run random clock mount evs)))%nat) /\
  (forall (random : nat -> Q) (prev : FingerMap) (w : World),
      coherent w ->
      (JsMap.size prev <= 1)%nat ->
      fst (eliminationTick random prev w) = prev /\
      timerRunning (snd (eliminationTick random prev w)) = false /\
      eliminationTimerRef (snd (eliminationTick random prev w)) = None).
Proof.
  split.
  - intros random clock evs.
    destruct (consistent_run random clock evs mount consistent_mount)
      as (_ & _ & ->).
    rewrite Nat.ltb_lt. lia.
  - intros random prev w Hco Hle.
    rewrite eliminationTick_idle by exact Hle. cbn [fst snd].
    destruct (clearEliminationTimer_stops w Hco) as (Hr & Hi & _).
    unfold timerRunning. rewrite Hi. auto.
Qed.

(** C2 at two fingers down (the timer runs) and at a tick that finds one
    finger while an interval is still alive (the timer is stopped). *)
Lemma timer_runs_iff_two_fingers_witness :
  timerRunning (world two_touching) = true /\
  coherent world_ticking /\
  timerRunning world_ticking = true /\
  fst (eliminationTick random_zero one_finger world_ticking) = one_finger /\
  timerRunning (snd (eliminationTick random_zero one_finger world_ticking))
  = false.
Proof.
  assert (Hco : coherent world_ticking).
  { unfold coherent, world_ticking. cbn. repeat split; lia. }
  split.
  - apply (proj1 timer_runs_iff_two_fingers random_zero clock_count
             [PointerDown (touch_at 1 10 20); PointerDown (touch_at 2 30 40);
              ListenersAttached]).
    vm_compute. lia.
  - split; [exact Hco|]. split; [reflexivity|].
    destruct (proj2 timer_runs_iff_two_fingers random_zero one_finger
                world_ticking Hco) as (Hf & Ht & _).
    + cbn. lia.
    + split; [exact Hf | exact Ht].
Defined.

(** ** The sounds of an elimination tick *)

Section TickSounds.

Variable random : nat -> Q.
Variable clock : nat -> Z.

(** The calls of a tick on two or more fingers, followed by the render. *)
Lemma tick_calls (s : App) (h : nat) :
  existsb (Nat.eqb h) (intervals (world s)) = true ->
  (2 <= JsMap.size (fingers s))%nat ->
  let s' := dispatch random clock s (IntervalFired h) in
  fingers s' = survivors random (fingers s) (world s) /\
  exists t' : list Call,
    emits (world s) (world s')
          (((if (0 <? JsMap.size (fingers s'))%nat
             then [PlaySound SoundRemove] else [])
              ++ match fingers s' with
                 | [(k, _)] => [SetWinnerId (Some k); PlaySound SoundWin]
                 | _ => []
                 end) ++ t') /\
    sounds t' = [] /\ winnerSets t' = [] /\
    winnerId (world s')
    = match fingers s' with
      | [(k, _)] => Some k
      | _ => winnerId (world s)
      end.
Proof.
  intros Hlive Hsz. cbn [dispatch]. rewrite Hlive.
  destruct (eliminationTick_live random (fingers s) (world s) Hsz)
    as (Hn & _ & Hw & Ht).
  pose proof (survivors_size random (fingers s) (world s) Hsz) as Hge.
  cbv zeta. rewrite commit_fingers, Hn. split; [reflexivity|].
  destruct (commit_calls s _ _ Ht) as (t' & Ht' & Hs' & Hw').
  rewrite commit_fingers, Hn in Hw'.
  exists t'. split; [exact Ht'|]. split; [exact Hs'|].
  assert (Hne : survivors random (fingers s) (world s) <> []).
  { intros E. rewrite E in Hge. cbn in Hge. lia. }
  split.
  - destruct Hw' as [Hw'|[_ Hnil]]; [exact Hw' | contradiction].
  - destruct (commit_winner s (eliminationTick random (fingers s)))
      as [E|[_ E]].
    + now rewrite E, Hw.
    + rewrite commit_fingers, Hn in E. contradiction.
Qed.

End TickSounds.

(** C1, as the code has it.  Every elimination tick on two or more fingers
    plays the "remove" sound once; the tick that leaves exactly one finger
    plays the "win" sound once after it, so two sounds fire on that tick; a
    tick that leaves two or more fingers plays "remove" only. *)
Theorem tick_plays_remove_then_win
        (random : nat -> Q) (clock : nat -> Z) (s : App) (h : nat)
        (Hlive : existsb (Nat.eqb h) (intervals (world s)) = true)
        (Hsize : (2 <= JsMap.size (fingers s))%nat) :
  sounds (since (world s)
                (world (dispatch random clock s (IntervalFired h))))
  = if (JsMap.size (fingers (dispatch random clock s (IntervalFired h)))
        =? 1)%nat
    then [SoundRemove; SoundWin]
    else [SoundRemove].
Proof.
  destruct (tick_calls random clock s h Hlive Hsize)
    as (Hn & t' & Ht & Hs & _).
  pose proof (survivors_size random (fingers s) (world s) Hsize) as Hge.
  rewrite <- Hn in Hge.
  rewrite (emits_since _ _ _ Ht), !sounds_app, Hs, app_nil_r.
  destruct (fingers (dispatch random clock s (IntervalFired h)))
    as [|[k f] [|e2 m]]; cbn in *; [lia | reflexivity | reflexivity].
Qed.

(** C1 at two fingers down: the tick that leaves one finger. *)
Lemma tick_plays_remove_then_win_witness :
  existsb (Nat.eqb 1%nat) (intervals (world two_touching)) = true /\
  (2 <= JsMap.size (fingers two_touching))%nat /\
  sounds (since (world two_touching)
                (world (dispatch random_zero clock_count two_touching
                                 (IntervalFired 1))))
  = [SoundRemove; SoundWin].
Proof.
  assert (Hlive : existsb (Nat.eqb 1%nat) (intervals (world two_touching))
                  = true) by (vm_compute; reflexivity).
  assert (Hsize : (2 <= JsMap.size (fingers two_touching))%nat)
    by (vm_compute; lia).
  split; [exact Hlive|]. split; [exact Hsize|].
  exact (tick_plays_remove_then_win random_zero clock_count two_touching 1
           Hlive Hsize).
Defined.

(** C1 as stated fails: the tick that takes the registry from two fingers
    to one plays "remove" as well as "win". *)
Lemma winner_tick_plays_two_sounds :
  JsMap.size (fingers two_touching) = 2%nat /\
  JsMap.size (fingers (dispatch random_zero clock_count two_touching
                                (IntervalFired 1))) = 1%nat /\
  sounds (since (world two_touching)
                (world (dispatch random_zero clock_count two_touching
                                 (IntervalFired 1))))
  = [SoundRemove; SoundWin] /\
  sounds (since (world two_touching)
                (world (dispatch random_zero clock_count two_touching
                                 (IntervalFired 1))))
  <> [SoundWin].
Proof.
  vm_compute. repeat split; discriminate.
Qed.

(** ** Pointer events *)

Section PointerEvents.

Variable random : nat -> Q.
Variable clock : nat -> Z.

(** The update a pointer event passes to [setFingers]; attaching the
    listeners leaves state and world as the empty update does. *)
Lemma dispatch_pointer (s : App) (ev : Event) :
  (forall h : nat, ev <> IntervalFired h) ->
  exists update : M FingerMap,
    fingers (dispatch random clock s ev) = fingers (commit s update) /\
    world (dispatch random clock s ev) = world (commit s update) /\
    winnerId (snd (update (world s))) = winnerId (world s) /\
    exists t : list Call,
      emits (world s) (snd (update (world s))) t /\ winnerSets t = [].
Proof.
  intros Hev.
  assert (Hret : winnerId (snd (ret (fingers s) (world s)))
                 = winnerId (world s) /\
                 exists t : list Call,
                   emits (world s) (snd (ret (fingers s) (world s))) t /\
                   winnerSets t = []).
  { split; [reflexivity|]. exists []. split; [apply emits_nil | reflexivity]. }
  assert (Hup : forall k cx cy,
             winnerId (snd (upsertFinger random clock k cx cy (fingers s)
                                         (world s)))
             = winnerId (world s) /\
             exists t : list Call,
               emits (world s)
                     (snd (upsertFinger random clock k cx cy (fingers s)
                                        (world s))) t /\
               winnerSets t = []).
  { intros k cx cy.
    destruct (upsertFinger_frame random clock k cx cy (fingers s) (world s))
      as (_ & _ & Hw & Ht).
    split; [exact Hw|]. eexists. split; [exact Ht|].
    now destruct (JsMap.has (fingers s) k). }
  assert (Hrm : forall k,
             winnerId (snd (removeFinger k (fingers s) (world s)))
             = winnerId (world s) /\
             exists t : list Call,
               emits (world s) (snd (removeFinger k (fingers s) (world s)))
                     t /\
               winnerSets t = []).
  { intros k.
    destruct (removeFinger_frame k (fingers s) (world s))
      as (_ & _ & Hw & Ht).
    split; [exact Hw | exact Ht]. }
  destruct ev as [e|e|e|e|h|]; cbn [dispatch].
  - eexists. split; [reflexivity|]. split; [reflexivity|].
    unfold onPointerDown.
    destruct (isMouse (pointerType e) && negb (button e =? 0));
      [exact Hret | apply Hup].
  - eexists. split; [reflexivity|]. split; [reflexivity|].
    unfold onPointerMove.
    destruct (negb (isPrimary e) && isMouse (pointerType e));
      [exact Hret|].
    destruct (JsMap.has (listening s) (pointerId e));
      [apply Hup | exact Hret].
  - eexists. split; [reflexivity|]. split; [reflexivity|]. apply Hrm.
  - eexists. split; [reflexivity|]. split; [reflexivity|]. apply Hrm.
  - now destruct (Hev h).
  - exists (ret (fingers s)). rewrite commit_ret.
    split; [reflexivity|]. split; [reflexivity | exact Hret].
Qed.

(** A pointer event never declares a winner: the only call of
    [setWinnerId] it can lead to is the clearing for an empty registry. *)
Lemma pointer_event_winner (s : App) (ev : Event) :
  (forall h : nat, ev <> IntervalFired h) ->
  let s' := dispatch random clock s ev in
  (forall v : option Z,
      In v (winnerSets (since (world s) (world s'))) -> v = None) /\
  (fingers s' <> [] -> winnerId (world s') = winnerId (world s)).
Proof.
  intros Hev.
  destruct (dispatch_pointer s ev Hev)
    as (update & Ef & Ew & Hw & t & Ht & Hns).
  cbv zeta. rewrite Ef, Ew. split.
  - destruct (commit_calls s update t Ht) as (t' & Ht' & _ & Hw').
    rewrite (emits_since _ _ _ Ht'), winnerSets_app, Hns. cbn [app].
    intros v Hv. destruct Hw' as [E|[E _]]; rewrite E in Hv.
    + destruct Hv.
    + destruct Hv as [<-|[]]. reflexivity.
  - intros Hne. destruct (commit_winner s update) as [E|[_ E]].
    + now rewrite E.
    + contradiction.
Qed.

(** A move or a repeated down of a registered pointer reaches
    [upsertFinger] only as a change of position, and the render that
    follows does not run the reconciliation effect. *)
Lemma commit_upsert_registered (s : App) (k cx cy : Z) :
  JsMap.has (fingers s) k = true ->
  let s' := commit s (upsertFinger random clock k cx cy (fingers s)) in
  world s' = world s /\
  JsMap.keys (fingers s') = JsMap.keys (fingers s) /\
  (forall k' : Z,
      k' <> k -> JsMap.get (fingers s') k' = JsMap.get (fingers s) k') /\
  exists f : Finger,
    JsMap.get (fingers s) k = Some f /\
    JsMap.get (fingers s') k
    = Some (mkFinger (id f) cx cy (color f) (createdAt f)).
Proof.
  intros Hk. destruct (JsMapFacts.has_get _ _ Hk) as [f Hf].
  assert (Hdep : timerDep (JsMap.set (fingers s) k (Finger_moved f cx cy))
                 = timerDep (fingers s)).
  { unfold timerDep. now rewrite JsMapFacts.keys_set_present. }
  unfold commit, upsertFinger. rewrite Hk, Hf. unfold ret.
  rewrite Hdep, String.eqb_refl. cbn [fingers world].
  split; [reflexivity|].
  split; [now apply JsMapFacts.keys_set_present|].
  split; [intros k' Hk'; now apply JsMapFacts.get_set_other|].
  exists f. split; [reflexivity | apply JsMapFacts.get_set_same].
Qed.

End PointerEvents.

(** ** The winner *)

Section Winner.

Variable random : nat -> Q.
Variable clock : nat -> Z.

(** State and world after an event are those after the render of some
    update. *)
Lemma dispatch_commit (s : App) (ev : Event) :
  exists update : M FingerMap,
    fingers (dispatch random clock s ev) = fingers (commit s update) /\
    world (dispatch random clock s ev) = world (commit s update).
Proof.
  destruct ev as [e|e|e|e|h|]; cbn [dispatch];
    try (eexists; split; reflexivity).
  - destruct (existsb (Nat.eqb h) (intervals (world s)));
      [eexists; split; reflexivity|].
    exists (ret (fingers s)). now rewrite commit_ret.
  - exists (ret (fingers s)). now rewrite commit_ret.
Qed.

(** An event that empties a registry that was not empty clears the
    winner. *)
Lemma dispatch_empties (s : App) (ev : Event) :
  fingers s <> [] ->
  fingers (dispatch random clock s ev) = [] ->
  winnerId (world (dispatch random clock s ev)) = None.
Proof.
  intros Hne Hnil.
  destruct (dispatch_commit s ev) as (update & Ef & Ew).
  rewrite Ef in Hnil. rewrite Ew.
  apply commit_empties; [exact Hne|]. now rewrite <- commit_fingers.
Qed.

(** A tick calls [setWinnerId] with a finger only when it takes the
    registry from two fingers to that one finger. *)
Lemma tick_winner_only_from_two (s : App) (h : nat) (k : Z) :
  In (Some k)
     (winnerSets (since (world s)
                        (world (dispatch random clock s (IntervalFired h)))))
  ->
  JsMap.size (fingers s) = 2%nat /\
  JsMap.keys (fingers (dispatch random clock s (IntervalFired h))) = [k] /\
  winnerId (world (dispatch random clock s (IntervalFired h))) = Some k.
Proof.
  destruct (existsb (Nat.eqb h) (intervals (world s))) eqn:Hlive.
  2:{ cbn [dispatch]. rewrite Hlive, since_refl. intros []. }
  destruct (Nat.le_gt_cases (JsMap.size (fingers s)) 1) as [Hle|Hgt].
  - cbn [dispatch]. rewrite Hlive.
    destruct (clearEliminationTimer_calls (world s))
      as (_ & t & Ht & _ & Hw).
    assert (Ht1 : emits (world s)
                        (snd (eliminationTick random (fingers s) (world s)))
                        t)
      by now rewrite eliminationTick_idle.
    destruct (commit_calls s _ t Ht1) as (t' & Ht' & _ & Hw').
    rewrite (emits_since _ _ _ Ht'), winnerSets_app, Hw. cbn [app].
    destruct Hw' as [E|[E _]]; rewrite E; cbn; intuition discriminate.
  - destruct (tick_calls random clock s h Hlive Hgt)
      as (Hn & t' & Ht & _ & Hw' & Hw).
    rewrite (emits_since _ _ _ Ht), !winnerSets_app, Hw', app_nil_r.
    destruct (survivors_cases random (fingers s) (world s))
      as [E|(k0 & Hk0 & E)]; rewrite E in Hn.
    + rewrite Hn in *.
      destruct (fingers s) as [|[k1 f1] [|e2 m]];
        cbn in Hgt |- *; try lia;
        (destruct (0 <? _)%nat; cbn; intuition discriminate).
    + apply JsMapFacts.size_delete_present in Hk0. rewrite <- Hn in Hk0.
      rewrite Hw.
      destruct (fingers (dispatch random clock s (IntervalFired h)))
        as [|[k1 f1] [|e2 m]]; cbn in Hk0 |- *.
      * intros [].
      * intros [[= ->]|[]]. auto.
      * intros [].
Qed.

End Winner.

(** C4.  No pointer event declares a winner: the only call of
    [setWinnerId] it can lead to is the clearing, and a release that leaves
    one finger keeps the winner as it was, as does every pointer event
    that leaves one finger.  A tick declares a winner only
    when it takes the registry from two fingers to one, and a tick that does
    so declares that one finger.  Whenever an event empties the registry the
    winner is cleared. *)
Theorem winner_declared_only_by_tick :
  (forall (random : nat -> Q) (clock : nat -> Z) (s : App) (ev : Event)
          (v : option Z),
      (forall h : nat, ev <> IntervalFired h) ->
      In v (winnerSets (since (world s)
                              (world (dispatch random clock s ev)))) ->
      v = None) /\
  (forall (random : nat -> Q) (clock : nat -> Z) (s : App) (ev : Event),
      (forall h : nat, ev <> IntervalFired h) ->
      JsMap.size (fingers (dispatch random clock s ev)) = 1%nat ->
      winnerId (world (dispatch random clock s ev)) = winnerId (world s)) /\
  (forall (random : nat -> Q) (clock : nat -> Z) (s : App) (h : nat)
          (k : Z),
      In (Some k)
         (winnerSets
            (since (world s)
                   (world (dispatch random clock s (IntervalFired h))))) ->
      JsMap.size (fingers s) = 2%nat /\
      JsMap.keys (fingers (dispatch random clock s (IntervalFired h))) = [k]
      /\ winnerId (world (dispatch random clock s (IntervalFired h)))
         = Some k) /\
  (forall (random : nat -> Q) (clock : nat -> Z) (s : App) (h : nat),
      existsb (Nat.eqb h) (intervals (world s)) = true ->
      JsMap.size (fingers s) = 2%nat ->
      JsMap.size (fingers (dispatch random clock s (IntervalFired h)))
      = 1%nat ->
      exists k : Z,
        JsMap.keys (fingers (dispatch random clock s (IntervalFired h)))
        = [k] /\
        winnerId (world (dispatch random clock s (IntervalFired h)))
        = Some k /\
        winnerSets
          (since (world s)
                 (world (dispatch random clock s (IntervalFired h))))
        = [Some k]) /\
  (forall (random : nat -> Q) (clock : nat -> Z) (s : App) (ev : Event),
      fingers s <> [] ->
      fingers (dispatch random clock s ev) = [] ->
      winnerId (world (dispatch random clock s ev)) = None).
Proof.
  split; [|split; [|split; [|split]]].
  - intros random clock s ev v Hev.
    apply (pointer_event_winner random clock s ev Hev).
  - intros random clock s ev Hev Hsz.
    apply (pointer_event_winner random clock s ev Hev).
    intros E. rewrite E in Hsz. discriminate.
  - intros random clock s h k. apply tick_winner_only_from_two.
  - intros random clock s h Hlive Hsz Hsz'.
    assert (Hge : (2 <= JsMap.size (fingers s))%nat) by lia.
    destruct (tick_calls random clock s h Hlive Hge)
      as (_ & t' & Ht & _ & Hw' & Hw).
    rewrite (emits_since _ _ _ Ht), !winnerSets_app, Hw', app_nil_r, Hw.
    destruct (fingers (dispatch random clock s (IntervalFired h)))
      as [|[k f] [|e2 m]]; try discriminate.
    exists k. cbn. auto.
  - intros random clock s ev. apply dispatch_empties.
Qed.

(** C4 on the sample game: lifting one of two fingers declares no winner,
    the tick on two fingers declares the survivor, and lifting the
    winning finger clears the winner. *)
Lemma winner_declared_only_by_tick_witness :
  winnerId (world (dispatch random_zero clock_count two_touching
                            (PointerUp (touch_at 1 10 20))))
  = winnerId (world two_touching) /\
  (exists k : Z,
      JsMap.keys (fingers winner_declared) = [k] /\
      winnerId (world winner_declared) = Some k /\
      winnerSets (since (world two_touching) (world winner_declared))
      = [Some k]) /\
  winnerId (world (dispatch random_zero clock_count winner_declared
                            (PointerUp (touch_at 2 30 40))))
  = None.
Proof.
  destruct winner_declared_only_by_tick as (_ & Hup & _ & Htick & Hempty).
  split; [|split].
  - apply Hup; [discriminate | vm_compute; reflexivity].
  - apply (Htick random_zero clock_count two_touching 1%nat);
      vm_compute; reflexivity.
  - apply Hempty; vm_compute; [discriminate | reflexivity].
Defined.

(** ** Move events *)

(** C8.  The claim fails of the code: [onPointerMove] tests the map that
    its listener closed over, not the registry the update is applied to.
    After the tick that eliminates finger 1 of two, and before the listeners
    are attached again, a move of pointer 1 (which is not in the registry)
    is not ignored: the registry grows from keys [2] to keys [2; 1], the
    "add" sound is played and the elimination timer runs again.  In general
    a move of a pointer that is absent from the registry and present in the
    listener's map registers the pointer as a new finger, at the end of the
    registry, with the "add" sound.  What holds of the claim: a move of a
    pointer absent from both maps changes nothing, and a move of a pointer
    in the registry leaves the world, the keys and every other finger as
    they are and changes at most the position of its finger. *)
Theorem stale_move_registers_untracked_pointer :
  (JsMap.has (fingers eliminated_still_listening) 1 = false /\
   JsMap.keys (fingers eliminated_still_listening) = [2] /\
   timerRunning (world eliminated_still_listening) = false /\
   JsMap.keys (fingers (dispatch random_zero clock_count
                                 eliminated_still_listening
                                 (PointerMove (touch_at 1 11 21))))
   = [2; 1] /\
   timerRunning (world (dispatch random_zero clock_count
                                 eliminated_still_listening
                                 (PointerMove (touch_at 1 11 21))))
   = true) /\
  (forall (random : nat -> Q) (clock : nat -> Z) (s : App)
          (e : PointerEvent),
      JsMap.has (fingers s) (pointerId e) = false ->
      JsMap.has (listening s) (pointerId e) = true ->
      negb (isPrimary e) && isMouse (pointerType e) = false ->
      JsMap.keys (fingers (dispatch random clock s (PointerMove e)))
      = (JsMap.keys (fingers s) ++ [pointerId e])%list /\
      sounds (since (world s)
                    (world (dispatch random clock s (PointerMove e))))
      = [SoundAdd]) /\
  (forall (random : nat -> Q) (clock : nat -> Z) (s : App)
          (e : PointerEvent),
      JsMap.has (fingers s) (pointerId e) = false ->
      JsMap.has (listening s) (pointerId e) = false ->
      dispatch random clock s (PointerMove e) = s) /\
  (forall (random : nat -> Q) (clock : nat -> Z) (s : App)
          (e : PointerEvent),
      JsMap.has (fingers s) (pointerId e) = true ->
      world (dispatch random clock s (PointerMove e)) = world s /\
      JsMap.keys (fingers (dispatch random clock s (PointerMove e)))
      = JsMap.keys (fingers s) /\
      (forall k : Z,
          k <> pointerId e ->
          JsMap.get (fingers (dispatch random clock s (PointerMove e))) k
          = JsMap.get (fingers s) k) /\
      exists f : Finger,
        JsMap.get (fingers s) (pointerId e) = Some f /\
        JsMap.get (fingers (dispatch random clock s (PointerMove e)))
                  (pointerId e)
        = Some (if (negb (isPrimary e) && isMouse (pointerType e))
                   || negb (JsMap.has (listening s) (pointerId e))
                then f
                else mkFinger (id f) (clientX e) (clientY e) (color f)
                              (createdAt f))).
Proof.
  split; [vm_compute; repeat split; reflexivity|].
  split; [|split].
  - intros random clock s e Hk Hl Hm. cbn [dispatch]. unfold onPointerMove.
    rewrite Hm, Hl. split.
    + rewrite commit_fingers. unfold upsertFinger. rewrite Hk. unfold bind.
      destruct (randomUniqueColor random
                  (map color (JsMap.values (fingers s))) (world s))
        as [c w1].
      cbn [fst Date_now playSound log ret].
      rewrite (JsMapFacts.set_absent _ _ _ Hk).
      unfold JsMap.keys. rewrite map_app. reflexivity.
    + pose proof (upsertFinger_frame random clock (pointerId e) (clientX e)
                    (clientY e) (fingers s) (world s)) as (_ & _ & _ & Ht).
      rewrite Hk in Ht.
      destruct (commit_calls s _ _ Ht) as (t' & Ht' & Hs & _).
      rewrite (emits_since _ _ _ Ht'), sounds_app, Hs. reflexivity.
  - intros random clock s e _ Hl. cbn [dispatch]. unfold onPointerMove.
    rewrite Hl.
    destruct (negb (isPrimary e) && isMouse (pointerType e));
      apply commit_ret.
  - intros random clock s e Hk. cbn [dispatch]. unfold onPointerMove.
    destruct (negb (isPrimary e) && isMouse (pointerType e));
      cbn [orb];
      [|destruct (JsMap.has (listening s) (pointerId e)); cbn [negb]].
    + rewrite commit_ret.
      destruct (JsMapFacts.has_get _ _ Hk) as [f Hf].
      repeat split; eauto.
    + now apply commit_upsert_registered.
    + rewrite commit_ret.
      destruct (JsMapFacts.has_get _ _ Hk) as [f Hf].
      repeat split; eauto.
Qed.

(** C8 on the sample game: the move of the eliminated pointer 1 registers
    it again; a move of pointer 7, never pressed, is ignored; a move of
    pointer 2, still down, keeps the keys. *)
Lemma stale_move_registers_untracked_pointer_witness :
  JsMap.keys (fingers (dispatch random_zero clock_count
                                eliminated_still_listening
                                (PointerMove (touch_at 1 11 21))))
  = (JsMap.keys (fingers eliminated_still_listening) ++ [1])%list /\
  dispatch random_zero clock_count two_touching
           (PointerMove (touch_at 7 0 0))
  = two_touching /\
  JsMap.keys (fingers (dispatch random_zero clock_count two_touching
                                (PointerMove (touch_at 2 31 41))))
  = JsMap.keys (fingers two_touching).
Proof.
  destruct stale_move_registers_untracked_pointer
    as (_ & Hstale & Habsent & Htracked).
  split; [|split].
  - apply (Hstale random_zero clock_count eliminated_still_listening
                  (touch_at 1 11 21)); vm_compute; reflexivity.
  - apply Habsent; vm_compute; reflexivity.
  - apply (Htracked random_zero clock_count two_touching (touch_at 2 31 41)).
    vm_compute. reflexivity.
Defined.

(** ** Position updates and the timer *)

(** C10.  A move, or a repeated down, of a pointer that is registered leaves
    the dependency string of the reconciliation effect as it is, so that the
    effect does not run: the timer ref, the live intervals and the next
    handle are unchanged and no call is made at all, in particular neither
    [clearInterval] nor [setInterval]. *)
Theorem position_update_keeps_timer
        (random : nat -> Q) (clock : nat -> Z) (s : App) (e : PointerEvent)
        (ev : Event)
        (Hev : ev = PointerMove e \/ ev = PointerDown e)
        (Hreg : JsMap.has (fingers s) (pointerId e) = true) :
  timerDep (fingers (dispatch random clock s ev)) = timerDep (fingers s) /\
  eliminationTimerRef (world (dispatch random clock s ev))
  = eliminationTimerRef (world s) /\
  intervals (world (dispatch random clock s ev)) = intervals (world s) /\
  nextHandle (world (dispatch random clock s ev)) = nextHandle (world s) /\
  since (world s) (world (dispatch random clock s ev)) = [].
Proof.
  assert (H : world (dispatch random clock s ev) = world s /\
              JsMap.keys (fingers (dispatch random clock s ev))
              = JsMap.keys (fingers s)).
  { destruct Hev as [-> | ->]; cbn [dispatch].
    - unfold onPointerMove.
      destruct (negb (isPrimary e) && isMouse (pointerType e));
        [|destruct (JsMap.has (listening s) (pointerId e))].
      + rewrite commit_ret. auto.
      + split; now apply commit_upsert_registered.
      + rewrite commit_ret. auto.
    - unfold onPointerDown.
      destruct (isMouse (pointerType e) && negb (button e =? 0)).
      + rewrite commit_ret. auto.
      + split; now apply commit_upsert_registered. }
  destruct H as (Hw & Hk). unfold timerDep. rewrite Hk, Hw.
  repeat split. apply since_refl.
Qed.

(** C10 on the sample game: finger 2 moves while the timer runs. *)
Lemma position_update_keeps_timer_witness :
  JsMap.has (fingers two_touching) 2 = true /\
  eliminationTimerRef
    (world (dispatch random_zero clock_count two_touching
                     (PointerMove (touch_at 2 31 41))))
  = Some 1%nat /\
  since (world two_touching)
        (world (dispatch random_zero clock_count two_touching
                         (PointerMove (touch_at 2 31 41))))
  = [].
Proof.
  assert (Hreg : JsMap.has (fingers two_touching)
                           (pointerId (touch_at 2 31 41)) = true)
    by (vm_compute; reflexivity).
  split; [exact Hreg|].
  destruct (position_update_keeps_timer random_zero clock_count two_touching
              (touch_at 2 31 41) (PointerMove (touch_at 2 31 41))
              (or_introl eq_refl) Hreg) as (_ & Href & _ & _ & Hs).
  split; [|exact Hs].
  rewrite Href. vm_compute. reflexivity.
Defined.

(** ** The index of the eliminated finger *)

Lemma roundHalfEven_nonneg (num den : Z) :
  0 <= num -> 0 < den -> 0 <= roundHalfEven num den.
Proof.
  intros Hn Hd. unfold roundHalfEven.
  assert (0 <= num / den) by (apply Z.div_pos; lia).
  destruct (2 * (num mod den) ?= den); [destruct (Z.even _)| |]; lia.
Qed.

Lemma roundHalfEven_below (num den N : Z) :
  0 <= num -> 0 < den -> 2 ^ 52 < N ->
  2 ^ 53 * num <= den * N * (2 ^ 53 - 1) ->
  roundHalfEven num den < N.
Proof.
  intros Hn Hd HN H.
  change (2 ^ 53) with (2 * 2 ^ 52) in H.
  set (h := 2 ^ 52) in *. assert (0 < h) by (subst h; lia).
  unfold roundHalfEven.
  pose proof (Z.div_mod num den ltac:(lia)) as E.
  pose proof (Z.mod_pos_bound num den Hd) as Hr.
  set (fl := num / den) in *. set (r := num mod den) in *.
  assert (Hfl : fl < N).
  { destruct (Z_lt_le_dec fl N) as [|Hge]; [assumption|exfalso].
    assert (den * N <= num) by nia.
    assert (2 * h * (den * N) <= den * N * (2 * h - 1)) by nia.
    assert (0 < den * N) by nia. nia. }
  assert (Hup : den <= 2 * r -> fl + 1 < N).
  { intros Hhalf.
    destruct (Z_lt_le_dec (fl + 1) N) as [|Hge]; [assumption|exfalso].
    assert (fl = N - 1) by lia. subst fl.
    assert (den * (2 * N - 1) <= 2 * num) by nia.
    assert (2 * h * (den * (2 * N - 1)) <= 2 * (den * N * (2 * h - 1))) by nia.
    assert (den * (2 * h * (2 * N - 1)) <= den * (2 * N * (2 * h - 1))) by nia.
    assert (2 * h * (2 * N - 1) <= 2 * N * (2 * h - 1)) by nia.
    nia. }
  destruct (Z.compare_spec (2 * r) den) as [Heq|Hlt|Hgt].
  - destruct (Z.even fl); [exact Hfl | apply Hup; lia].
  - exact Hfl.
  - apply Hup; lia.
Qed.

Lemma lastPlace_small (p q n : Z) :
  0 <= p -> 0 < q -> 1 <= n <= 2 ^ 53 -> p < q * n ->
  lastPlace p q <= 0 /\ 2 ^ 52 < n * 2 ^ (- lastPlace p q).
Proof.
  intros Hp Hq Hn Hlt. unfold lastPlace.
  set (K := 2 ^ 1074). assert (HK : 0 < K) by (subst K; apply Z.pow_pos_nonneg; lia).
  set (z := p * K / q).
  assert (Hz0 : 0 <= z) by (apply Z.div_pos; nia).
  assert (Hzq : z * q <= p * K) by (subst z; rewrite Z.mul_comm; apply Z.mul_div_le; lia).
  assert (Hzn : z < n * K) by nia.
  destruct (Z.max_spec (Z.log2 z - 1126) (-1074)) as [[Hc ->]|[Hc ->]].
  - (* subnormal *)
    split; [lia|]. change (- -1074) with 1074. fold K.
    assert (2 ^ 52 < K) by (subst K; apply Z.pow_lt_mono_r; lia).
    nia.
  - assert (Hzpos : 0 < z).
    { destruct (Z.eq_dec z 0) as [E|]; [|lia]. rewrite E in Hc. cbn in Hc. lia. }
    pose proof (Z.log2_spec z Hzpos) as (Hlo & _).
    set (L := Z.log2 z) in *.
    assert (HL : L <= 1126).
    { assert (z < 2 ^ 1127).
      { replace (2 ^ 1127) with (2 ^ 53 * K) by (subst K; rewrite <- Z.pow_add_r by lia; reflexivity). nia. }
      assert (L < 1127) by (apply (Z.pow_lt_mono_r_iff 2); lia). lia. }
    split; [lia|].
    replace (- (L - 1126)) with (1126 - L) by lia.
    assert (Hpow : 2 ^ L * 2 ^ (1126 - L) = 2 ^ 52 * K).
    { subst K. rewrite <- !Z.pow_add_r by lia. f_equal. lia. }
    assert (0 < 2 ^ (1126 - L)) by (apply Z.pow_pos_nonneg; lia).
    nia.
Qed.

(** The product of a nonnegative number that is at most the largest double
    below 1 and an integer [n] is rounded to a double below [n]. *)
Lemma Math_floor_mul_below_one (r : Q) (n : Z) :
  (0 <= r)%Q -> (r <= (2 ^ 53 - 1) # (2 ^ 53))%Q -> 1 <= n <= 2 ^ 53 ->
  0 <= Math_floor_mul r n < n.
Proof.
  intros Hlo Hhi Hn. destruct r as [a b].
  unfold Qle in Hlo, Hhi. cbn [Qnum Qden] in Hlo, Hhi.
  unfold Math_floor_mul, Math_floor, binary64.
  cbn [Qmult Qnum Qden inject_Z significand exponent].
  rewrite Pos.mul_1_r.
  assert (Ha : 0 <= a) by lia.
  assert (Hb : 0 < Z.pos b) by lia.
  rewrite Z.abs_eq by nia.
  set (p := a * n). set (q := Z.pos b).
  assert (Hp : 0 <= p) by (subst p; nia).
  change (Z.pos (2 ^ 53)) with (2 ^ 53) in Hhi.
  assert (Hab : a < q) by (subst q; nia).
  assert (Hpq : p < q * n) by (subst p; nia).
  destruct (lastPlace_small p q n Hp Hb Hn Hpq) as (He & HN).
  set (e := lastPlace p q) in *.
  set (D := 2 ^ (- e)) in *.
  assert (HD : 0 < D) by (subst D; apply Z.pow_pos_nonneg; lia).
  set (m := if 0 <=? e then roundHalfEven p (q * 2 ^ e)
            else roundHalfEven (p * 2 ^ (- e)) q).
  assert (Hm : m = roundHalfEven (p * D) q).
  { subst m D. destruct (Z.leb_spec 0 e) as [H0|H0]; [|reflexivity].
    assert (e = 0) by lia. replace e with 0 by lia. cbn [Z.opp].
    now rewrite !Z.pow_0_r, !Z.mul_1_r. }
  assert (Hm0 : 0 <= m) by (rewrite Hm; apply roundHalfEven_nonneg; nia).
  assert (HmN : m < n * D).
  { rewrite Hm. apply roundHalfEven_below; [nia | lia | exact HN |].
    subst p.
    assert (2 ^ 53 * a <= q * (2 ^ 53 - 1)) by (subst q; lia).
    assert (0 <= n * D) by nia.
    replace (2 ^ 53 * (a * n * D)) with ((2 ^ 53 * a) * (n * D)) by ring.
    replace (q * (n * D) * (2 ^ 53 - 1)) with ((q * (2 ^ 53 - 1)) * (n * D)) by ring.
    apply Z.mul_le_mono_nonneg_r; assumption. }
  assert (Hs : Z.sgn p * m = m).
  { destruct (Z.eq_dec p 0) as [E|E].
    - rewrite E. cbn [Z.sgn]. rewrite Hm, E. reflexivity.
    - rewrite Z.sgn_pos by lia. lia. }
  change (0 <= Z.shiftl (Z.sgn p * m) e < n). rewrite Hs.
  replace e with (- (- e)) by lia. rewrite Z.shiftl_opp_r.
  rewrite Z.shiftr_div_pow2 by lia. fold D.
  split.
  - apply Z.div_pos; lia.
  - apply Z.div_lt_upper_bound; [lia | nia].
Qed.


(** A double below 1 is at most the largest double below 1. *)
Lemma double_below_one (r : Q) :
  isDouble r -> (r < 1)%Q -> (r <= (2 ^ 53 - 1) # (2 ^ 53))%Q.
Proof.
  intros (m & k & Hm & [(Hk & E)|(Hk & E)]) Hlt; rewrite E in Hlt |- *.
  - unfold Qlt, Qle in *. cbn [Qnum Qden inject_Z] in *.
    change (Z.pos (2 ^ 53)) with (2 ^ 53). lia.
  - assert (Hpos : 0 < 2 ^ k) by (apply Z.pow_pos_nonneg; lia).
    unfold Qlt, Qle in *. cbn [Qnum Qden] in *.
    rewrite Z2Pos.id in Hlt by exact Hpos.
    rewrite Z2Pos.id by exact Hpos.
    change (Z.pos (2 ^ 53)) with (2 ^ 53).
    set (A := 2 ^ 53) in *. set (B := 2 ^ k) in *.
    assert (0 < A) by (subst A; lia).
    destruct (Z_le_gt_dec B A); nia.
Qed.

(** [Math.floor(r * n)] is an index below [n] for every double [r] that
    [Math.random()] can return and every length [n]. *)
Lemma Math_floor_mul_bounds (r : Q) (n : Z) :
  isDouble r -> (0 <= r)%Q -> (r < 1)%Q -> 1 <= n <= 2 ^ 53 ->
  0 <= Math_floor_mul r n < n.
Proof.
  intros Hd H0 H1 Hn.
  apply Math_floor_mul_below_one; [exact H0 | | exact Hn].
  now apply double_below_one.
Qed.

(** On the sample doubles the rounding of this file and the IEEE 754
    multiplication of the Standard Library give the same floor. *)
Lemma Math_floor_mul_agrees_with_reference :
  forallb (fun '(m, e, n) =>
             Math_floor_mul (ofBinary m e) n =? referenceFloorMul m e n)
          roundingSamples = true.
Proof.
  vm_compute. reflexivity.
Qed.

Lemma Array_at_in_bounds (a : list Z) (i : Z) :
  0 <= i < Z.of_nat (List.length a) ->
  exists v : Z, Array_at a i = Some v /\ In v a.
Proof.
  intros Hi. unfold Array_at.
  replace (i <? 0) with false by (symmetry; apply Z.ltb_ge; lia).
  destruct (nth_error a (Z.to_nat i)) as [v|] eqn:E.
  - exists v. split; [reflexivity | eapply nth_error_In, E].
  - apply nth_error_None in E. lia.
Qed.

(** C9.  On a tick that finds two or more fingers, with a random value that
    [Math.random()] can return (a double that is at least 0 and less than
    1), the index computed from the rounded product is a position of the
    key array, the selected id is registered, the deletion removes it, and
    the registry has exactly one finger less.  (The size of the registry is
    a length, which is below [2 ^ 32] and so has its exact double.) *)
Theorem tick_eliminates_registered_finger
        (random : nat -> Q) (prev : FingerMap) (w : World)
        (Hwf : JsMap.wf prev)
        (Hsize : (2 <= JsMap.size prev)%nat)
        (Hmax : Z.of_nat (JsMap.size prev) <= 2 ^ 53)
        (Hdouble : isDouble (random (randomCalls w)))
        (Hlo : (0 <= random (randomCalls w))%Q)
        (Hhi : (random (randomCalls w) < 1)%Q) :
  0 <= Math_floor_mul (random (randomCalls w))
                      (Z.of_nat (List.length (JsMap.keys prev)))
    < Z.of_nat (List.length (JsMap.keys prev)) /\
  exists loserId : Z,
    Array_at (JsMap.keys prev)
             (Math_floor_mul (random (randomCalls w))
                             (Z.of_nat (List.length (JsMap.keys prev))))
    = Some loserId /\
    JsMap.has prev loserId = true /\
    fst (eliminationTick random prev w) = JsMap.delete prev loserId /\
    JsMap.has (fst (eliminationTick random prev w)) loserId = false /\
    S (JsMap.size (fst (eliminationTick random prev w))) = JsMap.size prev.
Proof.
  assert (Hlen : List.length (JsMap.keys prev) = JsMap.size prev)
    by apply length_map.
  assert (Hidx : 0 <= Math_floor_mul (random (randomCalls w))
                        (Z.of_nat (List.length (JsMap.keys prev)))
                 < Z.of_nat (List.length (JsMap.keys prev)))
    by (apply Math_floor_mul_bounds;
        [exact Hdouble | exact Hlo | exact Hhi | lia]).
  split; [exact Hidx|].
  destruct (Array_at_in_bounds _ _ Hidx) as (k & Hk & Hin).
  apply JsMapFacts.has_In in Hin.
  destruct (eliminationTick_live random prev w Hsize) as (Hn & _).
  unfold survivors, loserOf in Hn. rewrite Hk in Hn.
  exists k. rewrite Hn.
  split; [exact Hk|]. split; [exact Hin|]. split; [reflexivity|].
  split; [now apply JsMapFacts.has_delete_same|].
  now apply JsMapFacts.size_delete_present.
Qed.

(** C9 on three fingers with the random value one half: index 1, the
    second finger goes. *)
Lemma tick_eliminates_registered_finger_witness :
  JsMap.wf three_fingers /\
  isDouble (random_half (randomCalls world_ticking)) /\
  (0 <= random_half (randomCalls world_ticking))%Q /\
  (random_half (randomCalls world_ticking) < 1)%Q /\
  exists loserId : Z,
    Array_at (JsMap.keys three_fingers)
             (Math_floor_mul (random_half (randomCalls world_ticking))
                (Z.of_nat (List.length (JsMap.keys three_fingers))))
    = Some loserId /\
    JsMap.has three_fingers loserId = true /\
    fst (eliminationTick random_half three_fingers world_ticking)
    = JsMap.delete three_fingers loserId /\
    JsMap.has (fst (eliminationTick random_half three_fingers world_ticking))
              loserId = false /\
    S (JsMap.size (fst (eliminationTick random_half three_fingers
                                        world_ticking)))
    = JsMap.size three_fingers.
Proof.
  assert (Hwf : JsMap.wf three_fingers).
  { unfold JsMap.wf. cbn. repeat constructor; cbn; intuition discriminate. }
  assert (Hsize : (2 <= JsMap.size three_fingers)%nat) by (cbn; lia).
  assert (Hmax : Z.of_nat (JsMap.size three_fingers) <= 2 ^ 53)
    by (cbn; lia).
  assert (Hdouble : isDouble (random_half (randomCalls world_ticking))).
  { exists 1, 1. split; [reflexivity|]. right. split; [lia | reflexivity]. }
  assert (Hlo : (0 <= random_half (randomCalls world_ticking))%Q)
    by (vm_compute; discriminate).
  assert (Hhi : (random_half (randomCalls world_ticking) < 1)%Q)
    by (vm_compute; reflexivity).
  split; [exact Hwf|]. split; [exact Hdouble|].
  split; [exact Hlo|]. split; [exact Hhi|].
  exact (proj2 (tick_eliminates_registered_finger random_half three_fingers
                  world_ticking Hwf Hsize Hmax Hdouble Hlo Hhi)).
Defined.

(** ** Replaying a history of registry operations *)

Section Replay.

Variable random : nat -> Q.
Variable clock : nat -> Z.

Lemma upsertFinger_set (k cx cy : Z) (prev : FingerMap) (w : World) :
  exists v : Finger,
    fst (upsertFinger random clock k cx cy prev w) = JsMap.set prev k v.
Proof.
  unfold upsertFinger. destruct (JsMap.has prev k) eqn:E.
  - destruct (JsMapFacts.has_get _ _ E) as [f ->]. eexists. reflexivity.
  - unfold bind.
    destruct (randomUniqueColor random (map color (JsMap.values prev)) w)
      as [c w1].
    eexists. reflexivity.
Qed.

Lemma removeFinger_delete (k : Z) (prev : FingerMap) (w : World) :
  fst (removeFinger k prev w) = JsMap.delete prev k.
Proof.
  unfold removeFinger. destruct (JsMap.has prev k) eqn:E; cbn [negb].
  - unfold bind, when, ret. now destruct (0 <? _)%nat.
  - cbn. symmetry. now apply JsMapFacts.delete_absent.
Qed.

Lemma size_set (m : FingerMap) (k : Z) (v : Finger) :
  JsMap.size (JsMap.set m k v)
  = ((if JsMap.has m k then 0 else 1) + JsMap.size m)%nat.
Proof.
  destruct (JsMap.has m k) eqn:E.
  - now apply JsMapFacts.size_set_present.
  - rewrite JsMapFacts.set_absent by exact E.
    unfold JsMap.size. rewrite length_app. cbn. lia.
Qed.

Lemma size_delete (m : FingerMap) (k : Z) :
  ((if JsMap.has m k then 1 else 0) + JsMap.size (JsMap.delete m k))%nat
  = JsMap.size m.
Proof.
  destruct (JsMap.has m k) eqn:E.
  - now apply JsMapFacts.size_delete_present.
  - now rewrite JsMapFacts.delete_absent.
Qed.

(** Replaying [ops] from a well-formed registry [m] whose ids are those
    the history [past] has registered. *)
Lemma replay_counts (ops : list Op) :
  forall (past : list Op) (m : FingerMap) (w : World),
    JsMap.wf m ->
    (forall k : Z, JsMap.has m k = registered past k) ->
    JsMap.wf (fst (replay random clock (m, w) ops)) /\
    (JsMap.size (fst (replay random clock (m, w) ops))
     + presentRemoves past ops
     = JsMap.size m + freshAdds past ops)%nat.
Proof.
  unfold replay.
  induction ops as [|op ops IH]; intros past m w Hwf Hreg.
  - cbn [fold_left fst freshAdds presentRemoves].
    split; [exact Hwf | reflexivity].
  - cbn [fold_left].
    destruct op as [k cx cy|k]; cbn [applyOp fst snd
                                     freshAdds presentRemoves].
    + destruct (upsertFinger_set k cx cy m w) as [v Hv].
      destruct (upsertFinger random clock k cx cy m w) as [m1 w1].
      cbn in Hv. subst m1.
      destruct (IH (Upsert k cx cy :: past) (JsMap.set m k v) w1)
        as (Hwf' & Hsz).
      * now apply JsMapFacts.wf_set.
      * intros k'. cbn [registered].
        destruct (Z.eqb_spec k k') as [<-|Hne].
        -- apply JsMapFacts.has_set_same.
        -- rewrite JsMapFacts.has_set_other by congruence. apply Hreg.
      * split; [exact Hwf'|].
        rewrite size_set, Hreg in Hsz. lia.
    + pose proof (removeFinger_delete k m w) as Hd.
      destruct (removeFinger k m w) as [m1 w1].
      cbn in Hd. subst m1.
      destruct (IH (Remove k :: past) (JsMap.delete m k) w1)
        as (Hwf' & Hsz).
      * now apply JsMapFacts.wf_delete.
      * intros k'. cbn [registered].
        destruct (Z.eqb_spec k k') as [<-|Hne].
        -- now apply JsMapFacts.has_delete_same.
        -- rewrite JsMapFacts.has_delete_other by congruence. apply Hreg.
      * split; [exact Hwf'|].
        pose proof (size_delete m k) as Hs. rewrite Hreg in Hs. lia.
Qed.

End Replay.

(** C3.  After every sequence of [upsertFinger] and [removeFinger] replayed
    from the empty registry, no id is registered twice, and the size of the
    registry is the number of adds of an id that was not registered at that
    time minus the number of removes of an id that was, which is never
    negative. *)
Theorem replay_no_duplicates_and_size
        (random : nat -> Q) (clock : nat -> Z) (ops : list Op) (w : World) :
  NoDup (JsMap.keys (fst (replay random clock ([], w) ops))) /\
  (presentRemoves [] ops <= freshAdds [] ops)%nat /\
  Z.of_nat (JsMap.size (fst (replay random clock ([], w) ops)))
  = Z.of_nat (freshAdds [] ops) - Z.of_nat (presentRemoves [] ops).
Proof.
  destruct (replay_counts random clock ops [] [] w) as (Hwf & Hsz).
  - constructor.
  - reflexivity.
  - assert (Hsz' : (JsMap.size (fst (replay random clock ([], w) ops))
                     + presentRemoves [] ops
                     = freshAdds [] ops)%nat) by exact Hsz.
    split; [exact Hwf | lia].
Qed.

(** * Further properties of the component *)

(** ** Strings of integers *)

Section Strings.

Lemma occurrences_app (c : ascii) (s1 s2 : string) :
  occurrences c (s1 ++ s2) = (occurrences c s1 + occurrences c s2)%nat.
Proof.
  induction s1 as [|a s1 IH]; cbn; [reflexivity|].
  destruct (Ascii.eqb a c); cbn; now rewrite IH.
Qed.

Lemma occurrences_uint (c : ascii) (d : Decimal.uint) :
  decimalChar c = false ->
  occurrences c (NilEmpty.string_of_uint d) = 0%nat.
Proof.
  unfold decimalChar. intros Hc.
  induction d; cbn [NilEmpty.string_of_uint occurrences];
    [reflexivity|..];
    match goal with
    | |- context [Ascii.eqb ?a c] =>
        destruct (Ascii.eqb_spec a c) as [<-|_];
        [vm_compute in Hc; discriminate Hc | exact IHd]
    end.
Qed.

(** The decimal notation of an integer has decimal characters only. *)
Lemma occurrences_Number (c : ascii) (n : Z) :
  decimalChar c = false -> occurrences c (Number_toString n) = 0%nat.
Proof.
  intros Hc.
  unfold Number_toString, NilZero.string_of_int, NilZero.string_of_uint.
  destruct (Z.to_int n) as [d|d].
  - destruct d; try apply (occurrences_uint c _ Hc).
    cbn [occurrences]. destruct (Ascii.eqb_spec "0" c) as [<-|_];
      [vm_compute in Hc; discriminate Hc | reflexivity].
  - cbn [occurrences].
    destruct (Ascii.eqb_spec "-" c) as [<-|_];
      [vm_compute in Hc; discriminate Hc|].
    destruct d; try apply (occurrences_uint c _ Hc).
    cbn [occurrences]. destruct (Ascii.eqb_spec "0" c) as [<-|_];
      [vm_compute in Hc; discriminate Hc | reflexivity].
Qed.

Lemma to_int_not_nil (n : Z) :
  Z.to_int n <> Decimal.Pos Decimal.Nil /\
  Z.to_int n <> Decimal.Neg Decimal.Nil.
Proof.
  destruct n as [|p|p]; cbn; split; try discriminate;
    intros [= H]; now apply DecimalPos.Unsigned.to_uint_nonnil in H.
Qed.

(** Reading the decimal notation back gives the integer. *)
Lemma Number_toString_parse (n : Z) :
  option_map Z.of_int (NilZero.int_of_string (Number_toString n)) = Some n.
Proof.
  unfold Number_toString.
  destruct (to_int_not_nil n) as (Hp & Hn).
  rewrite NilZero.isi by assumption. cbn. now rewrite DecimalZ.of_to.
Qed.

Lemma Number_toString_inj (n n' : Z) :
  Number_toString n = Number_toString n' -> n = n'.
Proof.
  intros H. pose proof (Number_toString_parse n) as Hn.
  rewrite H, Number_toString_parse in Hn. congruence.
Qed.

(** Two strings that are free of a separator and are each followed by it
    split in one way only. *)
Lemma separator_split (c : ascii) (a a' r r' : string) :
  occurrences c a = 0%nat ->
  occurrences c a' = 0%nat ->
  a ++ String c r = a' ++ String c r' ->
  a = a' /\ r = r'.
Proof.
  revert a'. induction a as [|x a IH]; intros [|x' a'] Ha Ha' E; cbn in *.
  - injection E as E. auto.
  - injection E as <- E. rewrite Ascii.eqb_refl in Ha'. discriminate.
  - injection E as -> E. rewrite Ascii.eqb_refl in Ha. discriminate.
  - injection E as -> E.
    destruct (Ascii.eqb x' c); [discriminate|].
    destruct (IH a' Ha Ha' E) as (-> & ->). auto.
Qed.

End Strings.

(** ** The dependency string and the colour string identify their inputs *)

Lemma comma_occurs (r : string) : occurrences "," ("," ++ r) <> 0%nat.
Proof.
  cbn. discriminate.
Qed.

Lemma Array_toString_inj (l : list Z) :
  forall l' : list Z, Array_toString l = Array_toString l' -> l = l'.
Proof.
  assert (Hd : decimalChar "," = false) by reflexivity.
  induction l as [|k l IH]; intros [|k' l'] E.
  - reflexivity.
  - symmetry in E. now apply Array_toString_nonempty in E.
  - now apply Array_toString_nonempty in E.
  - destruct l as [|k1 l], l' as [|k1' l'].
    + apply Number_toString_inj in E. now subst.
    + rewrite (Array_toString_cons k') in E by discriminate.
      change (Array_toString [k]) with (Number_toString k) in E.
      apply (f_equal (occurrences ",")) in E.
      rewrite occurrences_app, !occurrences_Number in E by exact Hd.
      cbn [Nat.add] in E. symmetry in E. now apply comma_occurs in E.
    + rewrite (Array_toString_cons k) in E by discriminate.
      change (Array_toString [k']) with (Number_toString k') in E.
      apply (f_equal (occurrences ",")) in E.
      rewrite occurrences_app, !occurrences_Number in E by exact Hd.
      cbn [Nat.add] in E. now apply comma_occurs in E.
    + rewrite !Array_toString_cons in E by discriminate.
      apply (separator_split "," (Number_toString k) (Number_toString k')
               (Array_toString (k1 :: l)) (Array_toString (k1' :: l')))
        in E; [|now apply occurrences_Number|now apply occurrences_Number].
      destruct E as (E1 & E2).
      apply Number_toString_inj in E1. apply IH in E2. congruence.
Qed.

(** X1.  The dependency string of the reconciliation effect is the same for
    two registries exactly when they have the same ids in the same order:
    the effect is skipped for no change of the key array, and runs for no
    other change. *)
Theorem timerDep_identifies_keys (m m' : FingerMap) :
  timerDep m = timerDep m' <-> JsMap.keys m = JsMap.keys m'.
Proof.
  unfold timerDep. split.
  - apply Array_toString_inj.
  - now intros ->.
Qed.

(** X2.  Two colour strings built by the template of [randomUniqueColor]
    are equal exactly when hue, saturation and lightness are equal, so a
    membership test on the strings is a test on the triples. *)
Theorem hsl_identifies_triple (h s l h' s' l' : Z) :
  hsl h s l = hsl h' s' l' <-> (h, s, l) = (h', s', l').
Proof.
  split; [|now intros [= -> -> ->]].
  assert (Hsp : decimalChar " " = false) by reflexivity.
  assert (Hpc : decimalChar "%" = false) by reflexivity.
  unfold hsl. intros E. cbn in E. injection E as E.
  change (Number_toString h ++ String " " (Number_toString s ++ "% "
            ++ Number_toString l ++ "%)")
          = Number_toString h' ++ String " " (Number_toString s' ++ "% "
              ++ Number_toString l' ++ "%)")) in E.
  apply separator_split in E; try now apply occurrences_Number.
  destruct E as (Eh & E). apply Number_toString_inj in Eh.
  change (Number_toString s ++ String "%" (" " ++ Number_toString l ++ "%)")
          = Number_toString s' ++ String "%" (" " ++ Number_toString l'
              ++ "%)")) in E.
  apply separator_split in E; try now apply occurrences_Number.
  destruct E as (Es & E). apply Number_toString_inj in Es.
  cbn in E. injection E as E.
  change (Number_toString l ++ String "%" ")"
          = Number_toString l' ++ String "%" ")") in E.
  apply separator_split in E; try now apply occurrences_Number.
  destruct E as (El & _). apply Number_toString_inj in El.
  congruence.
Qed.

(** ** Entries of the registry *)

Module JsMapEntries.
Import JsMap.

Lemma get_In (m : FingerMap) (k : Z) (f : Finger) :
  get m k = Some f -> In (k, f) m.
Proof.
  induction m as [|[k' v] m IH]; cbn; [discriminate|].
  destruct (Z.eqb_spec k' k) as [->|Hne].
  - intros [= ->]. now left.
  - intros H. right. now apply IH.
Qed.

Lemma In_set (m : FingerMap) (k : Z) (v : Finger) (e : Z * Finger) :
  In e (set m k v) -> e = (k, v) \/ In e m.
Proof.
  induction m as [|[k' v'] m IH]; cbn.
  - intros [<-|[]]. now left.
  - destruct (Z.eqb k' k); cbn.
    + intros [<-|H]; auto.
    + intros [<-|H]; auto. destruct (IH H); auto.
Qed.

Lemma In_delete (m : FingerMap) (k : Z) (e : Z * Finger) :
  In e (delete m k) -> In e m.
Proof.
  induction m as [|[k' v'] m IH]; cbn; [tauto|].
  destruct (Z.eqb k' k); cbn; [tauto|].
  intros [<-|H]; auto.
Qed.

(** Deleting a key that was just added to a map without it gives the map
    back, order included. *)
Lemma delete_set_absent (m : FingerMap) (k : Z) (v : Finger) :
  has m k = false -> delete (set m k v) k = m.
Proof.
  induction m as [|[k' v'] m IH]; cbn.
  - now rewrite Z.eqb_refl.
  - destruct (Z.eqb k' k) eqn:E; [discriminate|].
    intros H. cbn. rewrite E. now rewrite IH.
Qed.

Lemma keyedById_set (m : FingerMap) (k : Z) (v : Finger) :
  keyedById m -> id v = k -> keyedById (set m k v).
Proof.
  intros Hm Hv k' f Hin. apply In_set in Hin.
  destruct Hin as [[= -> ->]|Hin]; [exact Hv | now apply Hm].
Qed.

Lemma keyedById_delete (m : FingerMap) (k : Z) :
  keyedById m -> keyedById (delete m k).
Proof.
  intros Hm k' f Hin. apply Hm. eapply In_delete, Hin.
Qed.

(** In a registry filed by id the ids of the values are the keys. *)
Lemma keyedById_ids (m : FingerMap) :
  keyedById m -> map id (values m) = keys m.
Proof.
  induction m as [|[k f] m IH]; intros Hm; cbn; [reflexivity|].
  f_equal.
  - apply Hm. now left.
  - apply IH. intros k' f' Hin. apply Hm. now right.
Qed.

End JsMapEntries.

(** ** What the updates leave alone *)

Section Frames.

Variable random : nat -> Q.
Variable clock : nat -> Z.

Lemma clearEliminationTimer_bgColor (w : World) :
  bgColor (snd (clearEliminationTimer w)) = bgColor w.
Proof.
  now destruct w as [wi bg [[|h]|] ivs nh rc nc tr].
Qed.

Lemma upsertFinger_bgColor (k cx cy : Z) (prev : FingerMap) (w : World) :
  bgColor (snd (upsertFinger random clock k cx cy prev w)) = bgColor w.
Proof.
  unfold upsertFinger. destruct (JsMap.has prev k) eqn:E.
  - now destruct (JsMapFacts.has_get _ _ E) as [f ->].
  - unfold bind.
    destruct (randomUniqueColor_world random
                (map color (JsMap.values prev)) w) as [n Hn].
    destruct (randomUniqueColor random (map color (JsMap.values prev)) w)
      as [c w1].
    cbn in Hn. now subst w1.
Qed.

Lemma removeFinger_bgColor (k : Z) (prev : FingerMap) (w : World) :
  bgColor (snd (removeFinger k prev w)) = bgColor w.
Proof.
  unfold removeFinger. destruct (JsMap.has prev k); cbn [negb];
    [|reflexivity].
  unfold bind, when, ret. now destruct (0 <? _)%nat.
Qed.

Lemma eliminationTick_bgColor (prev : FingerMap) (w : World) :
  bgColor (snd (eliminationTick random prev w)) = bgColor w.
Proof.
  destruct (Nat.le_gt_cases (JsMap.size prev) 1) as [Hle|Hgt].
  - rewrite eliminationTick_idle by exact Hle.
    apply clearEliminationTimer_bgColor.
  - unfold eliminationTick.
    replace (JsMap.size prev <=? 1)%nat with false
      by (symmetry; apply Nat.leb_gt; lia).
    unfold bind. cbv beta iota zeta delta [Math_random].
    fold (loserOf random prev w). fold (survivors random prev w).
    generalize (survivors random prev w). intros next.
    destruct w as [wi bg ref ivs nh rc nc tr].
    destruct next as [|[k f] [|e2 next]];
      cbn; rewrite ?Z.eqb_refl; reflexivity.
Qed.

Lemma reconcileTimer_bgColor (m : FingerMap) (w : World) :
  bgColor (snd (reconcileTimer m w))
  = if (JsMap.size m =? 0)%nat then DEFAULT_BG else bgColor w.
Proof.
  now destruct w as [wi bg [[|h]|] ivs nh rc nc tr];
    destruct m as [|e1 [|e2 m]].
Qed.

(** The finger [upsertFinger] files under [k] carries the id [k]. *)
Lemma upsertFinger_keyedById (k cx cy : Z) (prev : FingerMap) (w : World) :
  keyedById prev ->
  keyedById (fst (upsertFinger random clock k cx cy prev w)).
Proof.
  intros Hm. unfold upsertFinger. destruct (JsMap.has prev k) eqn:E.
  - destruct (JsMapFacts.has_get _ _ E) as [f Hf]. rewrite Hf. cbn.
    apply JsMapEntries.keyedById_set; [exact Hm|].
    cbn. apply Hm. now apply JsMapEntries.get_In.
  - unfold bind.
    destruct (randomUniqueColor random (map color (JsMap.values prev)) w)
      as [c w1].
    cbn. now apply JsMapEntries.keyedById_set.
Qed.

Lemma survivors_keyedById (prev : FingerMap) (w : World) :
  keyedById prev -> keyedById (survivors random prev w).
Proof.
  unfold survivors. destruct (loserOf random prev w); [|auto].
  apply JsMapEntries.keyedById_delete.
Qed.

(** State and world after an event are those after a [setFingers] and
    its render, and the update keeps ids, background and, on an empty
    registry, the winner. *)
Lemma dispatch_update (s : App) (ev : Event) :
  keyedById (fingers s) ->
  exists update : M FingerMap,
    fingers (dispatch random clock s ev) = fingers (commit s update) /\
    world (dispatch random clock s ev) = world (commit s update) /\
    keyedById (fst (update (world s))) /\
    bgColor (snd (update (world s))) = bgColor (world s) /\
    (fingers s = [] ->
     winnerId (snd (update (world s))) = winnerId (world s)) /\
    (sameTimer (world s) (snd (update (world s))) \/
     fst (update (world s)) = fingers s).
Proof.
  intros Hk.
  assert (Hdropped :
            exists update : M FingerMap,
              fingers s = fingers (commit s update) /\
              world s = world (commit s update) /\
              keyedById (fst (update (world s))) /\
              bgColor (snd (update (world s))) = bgColor (world s) /\
              (fingers s = [] ->
               winnerId (snd (update (world s))) = winnerId (world s)) /\
              (sameTimer (world s) (snd (update (world s))) \/
               fst (update (world s)) = fingers s)).
  { exists (ret (fingers s)). rewrite commit_ret. cbn. auto 7. }
  destruct ev as [e|e|e|e|h|]; cbn [dispatch]; [| | | | |exact Hdropped].
  - eexists. split; [reflexivity|]. split; [reflexivity|].
    unfold onPointerDown.
    destruct (isMouse (pointerType e) && negb (button e =? 0)).
    + cbn. auto.
    + split; [now apply upsertFinger_keyedById|].
      split; [apply upsertFinger_bgColor|].
      split; [intros _|left]; apply upsertFinger_frame.
  - eexists. split; [reflexivity|]. split; [reflexivity|].
    unfold onPointerMove.
    destruct (negb (isPrimary e) && isMouse (pointerType e));
      [cbn; auto|].
    destruct (JsMap.has (listening s) (pointerId e)); [|cbn; auto].
    split; [now apply upsertFinger_keyedById|].
    split; [apply upsertFinger_bgColor|].
    split; [intros _|left]; apply upsertFinger_frame.
  - eexists. split; [reflexivity|]. split; [reflexivity|].
    unfold onPointerUp.
    split; [rewrite removeFinger_delete;
            now apply JsMapEntries.keyedById_delete|].
    split; [apply removeFinger_bgColor|].
    split; [intros _|left]; apply removeFinger_frame.
  - eexists. split; [reflexivity|]. split; [reflexivity|].
    unfold onPointerUp.
    split; [rewrite removeFinger_delete;
            now apply JsMapEntries.keyedById_delete|].
    split; [apply removeFinger_bgColor|].
    split; [intros _|left]; apply removeFinger_frame.
  - destruct (existsb (Nat.eqb h) (intervals (world s)));
      [|exact Hdropped].
    eexists. split; [reflexivity|]. split; [reflexivity|].
    split; [|split; [apply eliminationTick_bgColor|split]].
    + destruct (Nat.le_gt_cases (JsMap.size (fingers s)) 1) as [Hle|Hgt].
      * now rewrite eliminationTick_idle.
      * destruct (eliminationTick_live random (fingers s) (world s) Hgt)
          as (-> & _).
        now apply survivors_keyedById.
    + intros Hnil. rewrite eliminationTick_idle by (rewrite Hnil; cbn; lia).
      apply clearEliminationTimer_calls.
    + destruct (Nat.le_gt_cases (JsMap.size (fingers s)) 1) as [Hle|Hgt].
      * right. now rewrite eliminationTick_idle.
      * left. now apply eliminationTick_live.
Qed.

Lemma tidy_mount : tidy mount.
Proof.
  split; [apply consistent_mount|].
  split; [intros k f []|]. split; reflexivity.
Qed.

Lemma tidy_dispatch (s : App) (ev : Event) :
  tidy s -> tidy (dispatch random clock s ev).
Proof.
  intros (Hc & Hk & Hbg & Hw).
  split; [now apply consistent_dispatch|].
  destruct (dispatch_update s ev Hk)
    as (update & -> & -> & Hk' & Hbg' & Hw' & _).
  split; [now rewrite commit_fingers|].
  split.
  - destruct (commit_cases s update) as [[_ ->]|[_ ->]]; cbn.
    + congruence.
    + rewrite reconcileTimer_bgColor.
      destruct (_ =? 0)%nat; congruence.
  - intros Hnil.
    destruct (fingers s) as [|e m] eqn:Hs.
    + destruct (commit_winner s update) as [E|[E _]]; [|exact E].
      rewrite E, Hw'; auto.
    + apply commit_empties; [rewrite Hs; discriminate|].
      now rewrite <- commit_fingers.
Qed.

Lemma tidy_run (evs : list Event) (s : App) :
  tidy s -> tidy (run random clock s evs).
Proof.
  revert s. induction evs as [|ev evs IH]; intros s Hs; cbn; [exact Hs|].
  apply IH. now apply tidy_dispatch.
Qed.

End Frames.

(** ** What holds after every sequence of events *)

(** X3.  After every sequence of events the live intervals of the browser
    are exactly the handle held by [eliminationTimerRef]: the component
    never leaves an interval running that it can no longer clear, and never
    runs two. *)
Theorem live_interval_is_the_ref
        (random : nat -> Q) (clock : nat -> Z) (evs : list Event) (h : nat) :
  In h (intervals (world (run random clock mount evs))) <->
  eliminationTimerRef (world (run random clock mount evs)) = Some h.
Proof.
  destruct (consistent_run random clock evs mount consistent_mount)
    as (_ & (_ & Hco) & _).
  destruct (eliminationTimerRef (world (run random clock mount evs)))
    as [h0|].
  - destruct Hco as (_ & ->). cbn. split.
    + intros [->|[]]. reflexivity.
    + intros [= ->]. now left.
  - rewrite Hco. cbn. split; [tauto | discriminate].
Qed.

(** X4.  While at most one finger is registered no firing of any interval
    handle, however often, changes the registry or the world: with fewer
    than two fingers nobody is eliminated. *)
Theorem no_elimination_below_two
        (random : nat -> Q) (clock : nat -> Z) (evs : list Event)
        (hs : list nat)
        (Hsize : (JsMap.size (fingers (run random clock mount evs)) <= 1)%nat) :
  run random clock (run random clock mount evs) (map IntervalFired hs)
  = run random clock mount evs.
Proof.
  destruct (consistent_run random clock evs mount consistent_mount)
    as (_ & _ & Hrun).
  induction hs as [|h hs IH]; cbn [map run fold_left]; [reflexivity|].
  replace (dispatch random clock (run random clock mount evs)
                    (IntervalFired h))
    with (run random clock mount evs); [exact IH|].
  cbn [dispatch]. unfold timerRunning in Hrun.
  destruct (intervals (world (run random clock mount evs))).
  - reflexivity.
  - symmetry in Hrun. apply Nat.ltb_lt in Hrun. lia.
Qed.

(** X4 after the winner of the sample game is declared: handle 1 fires
    twice more and handle 2 once. *)
Lemma no_elimination_below_two_witness :
  run random_zero clock_count
      (run random_zero clock_count mount
           [PointerDown (touch_at 1 10 20); PointerDown (touch_at 2 30 40);
            IntervalFired 1])
      (map IntervalFired [1; 1; 2]%nat)
  = run random_zero clock_count mount
        [PointerDown (touch_at 1 10 20); PointerDown (touch_at 2 30 40);
         IntervalFired 1].
Proof.
  apply (no_elimination_below_two random_zero clock_count
           [PointerDown (touch_at 1 10 20); PointerDown (touch_at 2 30 40);
            IntervalFired 1] [1; 1; 2]%nat).
  vm_compute. lia.
Defined.

(** X5.  After every sequence of events every finger is filed under its own
    id: the key of the map, which the tick reads to declare the winner, and
    the [id] field, which the render compares with [winnerId], agree. *)
Theorem registry_keyed_by_id
        (random : nat -> Q) (clock : nat -> Z) (evs : list Event)
        (k : Z) (f : Finger)
        (Hin : In (k, f) (fingers (run random clock mount evs))) :
  id f = k /\ JsMap.get (fingers (run random clock mount evs)) k = Some f.
Proof.
  destruct (tidy_run random clock evs mount tidy_mount)
    as ((Hwf & _) & Hk & _).
  split; [now apply Hk|].
  unfold JsMap.wf in Hwf.
  induction (fingers (run random clock mount evs)) as [|[k' f'] m IH];
    [destruct Hin|].
  cbn in Hwf |- *. inversion Hwf as [|? ? Hnin Hnd]; subst.
  destruct Hin as [[= -> ->]|Hin].
  - now rewrite Z.eqb_refl.
  - destruct (Z.eqb_spec k' k) as [->|Hne].
    + exfalso. apply Hnin. apply (in_map fst) in Hin. exact Hin.
    + apply IH; auto. intros k0 f0 H0. apply Hk. now right.
Qed.

(** X5 on the sample game. *)
Lemma registry_keyed_by_id_witness :
  In (2, mkFinger 2 30 40 "hsl(0 75% 50%)" 1) (fingers two_touching) /\
  id (mkFinger 2 30 40 "hsl(0 75% 50%)" 1) = 2.
Proof.
  assert (Hin : In (2, mkFinger 2 30 40 "hsl(0 75% 50%)" 1)
                   (fingers (run random_zero clock_count mount
                               [PointerDown (touch_at 1 10 20);
                                PointerDown (touch_at 2 30 40);
                                ListenersAttached])))
    by (vm_compute; right; left; reflexivity).
  split; [exact Hin|].
  exact (proj1 (registry_keyed_by_id random_zero clock_count _ _ _ Hin)).
Defined.

(** X6.  After every sequence of events the background is the default one
    (no path of the component sets another), and whenever the title is
    shown, that is, whenever the registry is empty, no winner is recorded. *)
Theorem background_default_and_empty_has_no_winner
        (random : nat -> Q) (clock : nat -> Z) (evs : list Event) :
  background (render (run random clock mount evs)) = DEFAULT_BG /\
  (if titleShown (render (run random clock mount evs))
   then winnerId (world (run random clock mount evs)) = None
   else fingers (run random clock mount evs) <> []).
Proof.
  destruct (tidy_run random clock evs mount tidy_mount)
    as (_ & _ & Hbg & Hw).
  split; [exact Hbg|]. unfold render. cbn [titleShown].
  destruct (fingers (run random clock mount evs)); cbn.
  - now apply Hw.
  - discriminate.
Qed.

(** ** The render *)

Lemma filter_eqb_NoDup (k : Z) (l : list Z) :
  NoDup l -> (List.length (filter (Z.eqb k) l) <= 1)%nat.
Proof.
  induction l as [|a l IH]; intros Hnd; cbn; [lia|].
  inversion Hnd as [|? ? Hnin Hnd']; subst.
  destruct (Z.eqb_spec k a) as [->|Hne]; [|auto].
  cbn. replace (filter (Z.eqb a) l) with (@nil Z); [cbn; lia|].
  symmetry. clear IH Hnd Hnd'. induction l as [|b l IH]; cbn; [reflexivity|].
  destruct (Z.eqb_spec a b) as [->|_].
  - exfalso. apply Hnin. now left.
  - apply IH. intros H. apply Hnin. now right.
Qed.

Lemma pulses_by_id (w : option Z) (vs : list Finger) :
  List.length (filter snd (map (fun f => (f, isWinner w f)) vs))
  = List.length (filter (fun i => match w with
                                  | Some k => Z.eqb k i
                                  | None => false
                                  end) (map id vs)).
Proof.
  induction vs as [|f vs IH]; cbn [map filter snd]; [reflexivity|].
  destruct w as [k|].
  - change (isWinner (Some k) f) with (Z.eqb k (id f)).
    destruct (Z.eqb k (id f)); cbn [List.length]; now rewrite IH.
  - exact IH.
Qed.

(** X7.  After every sequence of events the render shows one ring per
    registered finger and at most one of them carries the halo of the
    winner; after the tick that takes the registry from two fingers to one
    it shows exactly one ring, and that ring carries the halo. *)
Theorem render_highlights_at_most_one :
  (forall (random : nat -> Q) (clock : nat -> Z) (evs : list Event),
      List.length (rings (render (run random clock mount evs)))
      = JsMap.size (fingers (run random clock mount evs)) /\
      (List.length (filter snd (rings (render (run random clock mount evs))))
       <= 1)%nat) /\
  (forall (random : nat -> Q) (clock : nat -> Z) (evs : list Event)
          (h : nat),
      existsb (Nat.eqb h)
              (intervals (world (run random clock mount evs))) = true ->
      JsMap.size (fingers (run random clock mount evs)) = 2%nat ->
      JsMap.size (fingers (run random clock mount (evs ++ [IntervalFired h])))
      = 1%nat ->
      exists f : Finger,
        In (id f, f) (fingers (run random clock mount evs)) /\
        rings (render (run random clock mount (evs ++ [IntervalFired h])))
        = [(f, true)]).
Proof.
  split.
  - intros random clock evs.
    destruct (tidy_run random clock evs mount tidy_mount)
      as ((Hwf & _) & Hk & _).
    unfold render. cbn [rings]. split.
    + unfold JsMap.values, JsMap.size. now rewrite !length_map.
    + rewrite pulses_by_id, JsMapEntries.keyedById_ids by exact Hk.
      destruct (winnerId (world (run random clock mount evs))) as [k|].
      * now apply filter_eqb_NoDup.
      * clear. induction (JsMap.keys _); cbn; [lia | assumption].
  - intros random clock evs h Hlive Hsz Hsz'.
    unfold run in Hsz' |- *. rewrite fold_left_app in Hsz' |- *.
    cbn [fold_left] in Hsz' |- *. fold (run random clock mount evs) in *.
    destruct (tidy_run random clock evs mount tidy_mount)
      as (_ & Hk & _).
    assert (Hge : (2 <= JsMap.size (fingers (run random clock mount evs)))%nat)
      by lia.
    destruct (tick_calls random clock _ h Hlive Hge)
      as (Hn & _ & _ & _ & _ & Hw).
    pose proof (survivors_cases random (fingers (run random clock mount evs))
                  (world (run random clock mount evs))) as Hcases.
    rewrite <- Hn in Hcases.
    unfold render. rewrite Hw.
    destruct (fingers (dispatch random clock (run random clock mount evs)
                                (IntervalFired h)))
      as [|[k f] [|e2 m]] eqn:E; try discriminate.
    assert (Hin : In (k, f) (fingers (run random clock mount evs))).
    { destruct Hcases as [Hc|(k0 & _ & Hc)].
      - rewrite <- Hc. now left.
      - apply JsMapEntries.In_delete with (k := k0). rewrite <- Hc. now left. }
    pose proof (Hk k f Hin) as Hid.
    exists f. rewrite Hid. split; [exact Hin|].
    cbn. now rewrite Hid, Z.eqb_refl.
Qed.

(** X7 on the sample game: after the tick on two fingers one ring is left
    and it carries the halo. *)
Lemma render_highlights_at_most_one_witness :
  exists f : Finger,
    In (id f, f)
       (fingers (run random_zero clock_count mount
                     [PointerDown (touch_at 1 10 20);
                      PointerDown (touch_at 2 30 40)])) /\
    rings (render (run random_zero clock_count mount
                       ([PointerDown (touch_at 1 10 20);
                         PointerDown (touch_at 2 30 40)]
                          ++ [IntervalFired 1])))
    = [(f, true)].
Proof.
  apply (proj2 render_highlights_at_most_one random_zero clock_count
           [PointerDown (touch_at 1 10 20); PointerDown (touch_at 2 30 40)]
           1%nat); vm_compute; reflexivity.
Defined.

(** ** Restarting the timer *)

Lemma skipn_own_app (tr t : list Call) :
  skipn (List.length tr) (tr ++ t) = t.
Proof.
  now rewrite skipn_app, skipn_all, Nat.sub_diag.
Qed.

(** With two or more fingers the reconciliation effect clears the interval
    of the ref, if any, and starts one with a fresh handle. *)
Lemma reconcileTimer_restart (m : FingerMap) (w : World) :
  coherent w ->
  (2 <= JsMap.size m)%nat ->
  eliminationTimerRef (snd (reconcileTimer m w)) = Some (nextHandle w) /\
  intervals (snd (reconcileTimer m w)) = [nextHandle w] /\
  since w (snd (reconcileTimer m w))
  = (match eliminationTimerRef w with
     | Some h => [ClearInterval h]
     | None => []
     end ++ [SetInterval (nextHandle w)])%list.
Proof.
  intros Hco Hsz.
  destruct m as [|e1 [|e2 m]]; try (cbn in Hsz; lia).
  destruct w as [wi bg [[|h]|] ivs nh rc nc tr]; unfold coherent in Hco;
    unfold since; cbn -[without app skipn] in *.
  - lia.
  - destruct Hco as (_ & _ & ->). rewrite without_only.
    repeat split. rewrite <- app_assoc. apply skipn_own_app.
  - destruct Hco as (_ & ->). repeat split. apply skipn_own_app.
Qed.

(** X8.  Whenever an event changes the key array of the registry and leaves
    two or more fingers, be it a press, a release or an elimination tick,
    the running interval is cleared and a new one is started under a handle
    that was never used before: every change of the set of fingers restarts
    the elimination countdown. *)
Theorem timer_restarts_on_key_change
        (random : nat -> Q) (clock : nat -> Z) (evs : list Event)
        (ev : Event)
        (Hkeys : JsMap.keys (fingers (dispatch random clock
                                        (run random clock mount evs) ev))
                 <> JsMap.keys (fingers (run random clock mount evs)))
        (Hsize : (2 <= JsMap.size (fingers (dispatch random clock
                                              (run random clock mount evs)
                                              ev)))%nat) :
  eliminationTimerRef (world (dispatch random clock
                                (run random clock mount evs) ev))
  = Some (nextHandle (world (run random clock mount evs))) /\
  intervals (world (dispatch random clock (run random clock mount evs) ev))
  = [nextHandle (world (run random clock mount evs))] /\
  ~ In (nextHandle (world (run random clock mount evs)))
       (intervals (world (run random clock mount evs))).
Proof.
  destruct (tidy_run random clock evs mount tidy_mount)
    as ((_ & Hco & _) & Hk & _).
  set (s := run random clock mount evs) in *.
  assert (Hfresh : ~ In (nextHandle (world s)) (intervals (world s))).
  { destruct Hco as (_ & Hco).
    destruct (eliminationTimerRef (world s)) as [h|].
    - destruct Hco as (Hlt & ->). intros [->|[]]. lia.
    - rewrite Hco. intros []. }
  destruct (dispatch_update random clock s ev Hk)
    as (update & Ef & Ew & _ & _ & _ & Htimer).
  rewrite Ef in Hkeys, Hsize. rewrite Ew. clear Ef Ew.
  rewrite commit_fingers in Hkeys, Hsize.
  destruct Htimer as [Hsame|Hnext]; [|now rewrite Hnext in Hkeys].
  pose proof (sameTimer_coherent _ _ Hsame Hco) as Hco1.
  destruct Hsame as (Href & _ & Hnh).
  destruct (commit_cases s update) as [[Hdep _]|[_ ->]].
  { apply Array_toString_inj in Hdep. now destruct Hkeys. }
  cbn [world].
  destruct (reconcileTimer_restart _ _ Hco1 Hsize) as (Hr & Hi & _).
  rewrite Hr, Hi, Hnh. repeat split. exact Hfresh.
Qed.

(** X8 on the sample game: the tick on three fingers leaves two and
    restarts the timer under handle 3. *)
Lemma timer_restarts_on_key_change_witness :
  eliminationTimerRef
    (world (dispatch random_zero clock_count
              (run random_zero clock_count mount
                   [PointerDown (touch_at 1 10 20);
                    PointerDown (touch_at 2 30 40);
                    PointerDown (touch_at 3 50 60)])
              (IntervalFired 2)))
  = Some 3%nat.
Proof.
  refine (proj1 (timer_restarts_on_key_change random_zero clock_count
                   [PointerDown (touch_at 1 10 20);
                    PointerDown (touch_at 2 30 40);
                    PointerDown (touch_at 3 50 60)]
                   (IntervalFired 2) _ _)).
  - vm_compute. discriminate.
  - vm_compute. lia.
Defined.

(** ** A finger through its lifetime *)

Section Lifetime.

Variable random : nat -> Q.
Variable clock : nat -> Z.

Lemma sameIdentity_refl (f : Finger) : sameIdentity f f.
Proof.
  repeat split.
Qed.

Lemma upsertFinger_identity (k0 cx cy : Z) (prev : FingerMap) (w : World)
      (k : Z) (f f' : Finger) :
  JsMap.get prev k = Some f ->
  JsMap.get (fst (upsertFinger random clock k0 cx cy prev w)) k = Some f' ->
  sameIdentity f f'.
Proof.
  intros Hf Hf'. destruct (Z.eq_dec k k0) as [->|Hne].
  - unfold upsertFinger in Hf'.
    assert (Hhas : JsMap.has prev k0 = true).
    { destruct (JsMap.has prev k0) eqn:E; [reflexivity|].
      apply JsMapFacts.get_has_false in E. congruence. }
    rewrite Hhas, Hf in Hf'. cbn in Hf'.
    rewrite JsMapFacts.get_set_same in Hf'. injection Hf' as <-.
    repeat split.
  - destruct (upsertFinger_set random clock k0 cx cy prev w) as [v Hv].
    rewrite Hv, JsMapFacts.get_set_other in Hf' by exact Hne.
    assert (f' = f) by congruence. subst. apply sameIdentity_refl.
Qed.

Lemma delete_identity (k0 : Z) (prev : FingerMap) (k : Z) (f f' : Finger) :
  JsMap.wf prev ->
  JsMap.get prev k = Some f ->
  JsMap.get (JsMap.delete prev k0) k = Some f' ->
  f' = f.
Proof.
  intros Hwf Hf Hf'. destruct (Z.eq_dec k k0) as [->|Hne].
  - pose proof (JsMapFacts.has_delete_same prev k0 Hwf) as E.
    apply JsMapFacts.get_has_false in E. congruence.
  - rewrite JsMapFacts.get_delete_other in Hf' by exact Hne. congruence.
Qed.

End Lifetime.

(** X9.  No event changes the id, the colour or the creation time of a
    finger that is registered before and after it: from the press that
    creates a finger to the release or the tick that removes it only its
    position ever changes. *)
Theorem finger_identity_is_kept
        (random : nat -> Q) (clock : nat -> Z) (evs : list Event)
        (ev : Event) (k : Z) (f f' : Finger)
        (Hbefore : JsMap.get (fingers (run random clock mount evs)) k
                   = Some f)
        (Hafter : JsMap.get (fingers (dispatch random clock
                                        (run random clock mount evs) ev)) k
                  = Some f') :
  sameIdentity f f'.
Proof.
  destruct (consistent_run random clock evs mount consistent_mount)
    as (Hwf & _).
  set (s := run random clock mount evs) in *.
  assert (Hrm : forall k0 w,
             JsMap.get (fst (removeFinger k0 (fingers s) w)) k = Some f' ->
             sameIdentity f f').
  { intros k0 w H. rewrite removeFinger_delete in H.
    rewrite (delete_identity k0 (fingers s) k f f' Hwf Hbefore H).
    apply sameIdentity_refl. }
  assert (Hsame : JsMap.get (fingers s) k = Some f' -> sameIdentity f f').
  { intros H. assert (f' = f) by congruence. subst. apply sameIdentity_refl. }
  destruct ev as [e|e|e|e|h|]; cbn [dispatch] in Hafter;
    [| | | | |now apply Hsame];
    try rewrite commit_fingers in Hafter.
  - unfold onPointerDown in Hafter.
    destruct (isMouse (pointerType e) && negb (button e =? 0));
      [now apply Hsame|].
    eapply upsertFinger_identity; eauto.
  - unfold onPointerMove in Hafter.
    destruct (negb (isPrimary e) && isMouse (pointerType e));
      [now apply Hsame|].
    destruct (JsMap.has (listening s) (pointerId e)); [|now apply Hsame].
    eapply upsertFinger_identity; eauto.
  - eapply Hrm, Hafter.
  - eapply Hrm, Hafter.
  - destruct (existsb (Nat.eqb h) (intervals (world s)));
      [|now apply Hsame].
    rewrite commit_fingers in Hafter.
    destruct (Nat.le_gt_cases (JsMap.size (fingers s)) 1) as [Hle|Hgt].
    + rewrite eliminationTick_idle in Hafter by exact Hle.
      now apply Hsame.
    + destruct (eliminationTick_live random (fingers s) (world s) Hgt)
        as (Hn & _).
      rewrite Hn in Hafter. unfold survivors in Hafter.
      destruct (loserOf random (fingers s) (world s)) as [k0|];
        [|now apply Hsame].
      rewrite (delete_identity k0 (fingers s) k f f' Hwf Hbefore Hafter).
      apply sameIdentity_refl.
Qed.

(** X9 on the sample game: finger 2 moves. *)
Lemma finger_identity_is_kept_witness :
  sameIdentity (mkFinger 2 30 40 "hsl(0 75% 50%)" 1)
               (mkFinger 2 31 41 "hsl(0 75% 50%)" 1).
Proof.
  apply (finger_identity_is_kept random_zero clock_count
           [PointerDown (touch_at 1 10 20); PointerDown (touch_at 2 30 40);
            ListenersAttached]
           (PointerMove (touch_at 2 31 41)) 2);
    vm_compute; reflexivity.
Defined.

(** X10.  A press followed by the release of the same pointer, on a
    registry that does not have it, gives back the registry as it was, in
    the same order; this holds as well when the press is dropped as a
    secondary mouse button. *)
Theorem press_then_release_restores_registry
        (random : nat -> Q) (clock : nat -> Z) (s : App)
        (e e' : PointerEvent)
        (Hid : pointerId e' = pointerId e)
        (Habsent : JsMap.has (fingers s) (pointerId e) = false) :
  fingers (dispatch random clock (dispatch random clock s (PointerDown e))
                    (PointerUp e'))
  = fingers s.
Proof.
  cbn [dispatch]. rewrite !commit_fingers. unfold onPointerUp.
  rewrite removeFinger_delete, Hid.
  unfold onPointerDown.
  destruct (isMouse (pointerType e) && negb (button e =? 0)).
  - cbn. now apply JsMapFacts.delete_absent.
  - destruct (upsertFinger_set random clock (pointerId e) (clientX e)
                (clientY e) (fingers s) (world s)) as [v ->].
    now apply JsMapEntries.delete_set_absent.
Qed.

(** X10 on the sample game: pointer 3 taps while fingers 1 and 2 are
    down. *)
Lemma press_then_release_restores_registry_witness :
  fingers (dispatch random_zero clock_count
             (dispatch random_zero clock_count two_touching
                       (PointerDown (touch_at 3 50 60)))
             (PointerUp (touch_at 3 51 61)))
  = fingers two_touching.
Proof.
  apply press_then_release_restores_registry;
    [reflexivity | vm_compute; reflexivity].
Defined.

(** ** Which finger a tick eliminates *)





(** ** The colours the allocator can return *)

(** X12.  With random values that [Math.random()] can return (doubles that
    are at least 0 and less than 1) every colour the allocator returns has a
    hue from 0 to 359, a saturation from 70 to 84 and a lightness from 45 to
    52, whether it comes from the loop or from the fallback: no rounded
    product reaches 360, 15 or 8. *)
Theorem randomUniqueColor_band
        (random : nat -> Q) (existing : list string) (w : World)
        (Hrange : inRange random) :
  exists h s l : Z,
    fst (randomUniqueColor random existing w) = hsl h s l /\
    0 <= h < 360 /\ 70 <= s <= 84 /\ 45 <= l <= 52.
Proof.
  assert (Hb : forall k n,
             1 <= n <= 2 ^ 53 -> 0 <= Math_floor_mul (random k) n < n).
  { intros k n Hn. destruct (Hrange k) as (Hd & Hlo & Hhi).
    now apply Math_floor_mul_bounds. }
  unfold randomUniqueColor. rewrite randomUniqueColor_from_firstFree.
  destruct (firstFree existing (candidates random 30 w)) as [[i c]|] eqn:E.
  - apply firstFree_Some in E. destruct E as (Hn & _).
    apply nth_error_In in Hn. unfold candidates in Hn.
    apply in_map_iff in Hn. destruct Hn as (j & <- & _).
    unfold candidate. cbn [fst].
    eexists _, _, _. split; [reflexivity|].
    pose proof (Hb (3 * j + randomCalls w)%nat 360 ltac:(lia)).
    pose proof (Hb (S (3 * j + randomCalls w)) 15 ltac:(lia)).
    pose proof (Hb (S (S (3 * j + randomCalls w))) 8 ltac:(lia)).
    lia.
  - cbn [fst]. eexists _, 75, 50. split; [reflexivity|].
    pose proof (Hb (3 * 30 + randomCalls w)%nat 360 ltac:(lia)). lia.
Qed.

(** X12 with the random value one half throughout. *)
Lemma randomUniqueColor_band_witness :
  inRange random_half /\
  exists h s l : Z,
    fst (randomUniqueColor random_half [] world0) = hsl h s l /\
    0 <= h < 360 /\ 70 <= s <= 84 /\ 45 <= l <= 52.
Proof.
  assert (Hrange : inRange random_half).
  { intros n. split.
    - exists 1, 1. split; [reflexivity|]. right. split; [lia | reflexivity].
    - split; vm_compute; [discriminate | reflexivity]. }
  split; [exact Hrange|].
  exact (randomUniqueColor_band random_half [] world0 Hrange).
Defined.

(** ** A whole game *)

Section Game.

Variable random : nat -> Q.
Variable clock : nat -> Z.
Hypothesis Hrange : inRange random.

(** With a random value in range a tick on two or more fingers deletes a
    registered finger. *)
Lemma survivors_in_range (prev : FingerMap) (w : World) :
  (2 <= JsMap.size prev)%nat ->
  Z.of_nat (JsMap.size prev) <= 2 ^ 53 ->
  exists k : Z,
    JsMap.has prev k = true /\
    survivors random prev w = JsMap.delete prev k.
Proof.
  intros Hsz Hmax.
  assert (Hlen : List.length (JsMap.keys prev) = JsMap.size prev)
    by apply length_map.
  destruct (Hrange (randomCalls w)) as (Hd & Hlo & Hhi).
  destruct (Array_at_in_bounds (JsMap.keys prev)
              (Math_floor_mul (random (randomCalls w))
                 (Z.of_nat (List.length (JsMap.keys prev)))))
    as (k & Hk & Hin).
  { apply Math_floor_mul_bounds; [exact Hd | exact Hlo | exact Hhi | lia]. }
  exists k. split; [now apply JsMapFacts.has_In|].
  unfold survivors, loserOf. now rewrite Hk.
Qed.

(** In a consistent state with two or more fingers the interval of the ref
    is alive. *)
Lemma consistent_ticking (s : App) :
  consistent s ->
  (2 <= JsMap.size (fingers s))%nat ->
  exists h : nat,
    eliminationTimerRef (world s) = Some h /\
    existsb (Nat.eqb h) (intervals (world s)) = true.
Proof.
  intros (_ & (_ & Hco) & Hrun) Hsz.
  destruct (eliminationTimerRef (world s)) as [h|].
  - exists h. split; [reflexivity|]. destruct Hco as (_ & ->).
    cbn. now rewrite Nat.eqb_refl.
  - unfold timerRunning in Hrun. rewrite Hco in Hrun.
    symmetry in Hrun. apply Nat.ltb_ge in Hrun. lia.
Qed.

(** In a consistent state with at most one finger the ref is empty. *)
Lemma consistent_idle (s : App) :
  consistent s ->
  (JsMap.size (fingers s) <= 1)%nat ->
  eliminationTimerRef (world s) = None.
Proof.
  intros (_ & (_ & Hco) & Hrun) Hsz.
  destruct (eliminationTimerRef (world s)) as [h|]; [|reflexivity].
  unfold timerRunning in Hrun. destruct Hco as (_ & Hi). rewrite Hi in Hrun.
  symmetry in Hrun. apply Nat.ltb_lt in Hrun. lia.
Qed.

(** One firing of the timer on [n + 2] fingers. *)
Lemma fireTimer_step (s : App) (n : nat) :
  consistent s ->
  JsMap.size (fingers s) = S (S n) ->
  Z.of_nat (S (S n)) <= 2 ^ 53 ->
  consistent (fireTimer random clock s) /\
  JsMap.size (fingers (fireTimer random clock s)) = S n /\
  incl (fingers (fireTimer random clock s)) (fingers s) /\
  winnerId (world (fireTimer random clock s))
  = match fingers (fireTimer random clock s) with
    | [(k, _)] => Some k
    | _ => winnerId (world s)
    end /\
  exists t : list Call,
    emits (world s) (world (fireTimer random clock s)) t /\
    sounds t = SoundRemove :: match n with
                              | O => [SoundWin]
                              | S _ => []
                              end.
Proof.
  intros Hs Hsz Hmax.
  assert (Hge : (2 <= JsMap.size (fingers s))%nat) by lia.
  destruct (consistent_ticking s Hs Hge) as (h & Href & Hlive).
  unfold fireTimer. rewrite Href.
  split; [now apply consistent_dispatch|].
  destruct (tick_calls random clock s h Hlive Hge)
    as (Hn & t' & Ht & Hs' & _ & Hw).
  destruct (survivors_in_range (fingers s) (world s) Hge) as (k & Hk & E);
    [rewrite Hsz; exact Hmax|].
  rewrite E in Hn.
  pose proof (JsMapFacts.size_delete_present _ _ Hk) as Hd.
  rewrite <- Hn in Hd.
  split; [lia|].
  split; [rewrite Hn; intros e; apply JsMapEntries.In_delete|].
  split; [exact Hw|].
  eexists. split; [exact Ht|].
  rewrite !sounds_app, Hs', app_nil_r.
  destruct (fingers (dispatch random clock s (IntervalFired h)))
    as [|[k1 f1] [|e2 m]]; cbn in Hd |- *.
  - lia.
  - assert (n = 0%nat) by lia. now subst.
  - destruct n; [lia | reflexivity].
Qed.

(** [n + 1] firings of the timer on [n + 2] fingers leave one finger, the
    winner. *)
Lemma ticks_to_one (n : nat) :
  forall s : App,
    consistent s ->
    JsMap.size (fingers s) = S (S n) ->
    Z.of_nat (S (S n)) <= 2 ^ 53 ->
    exists (k : Z) (f : Finger) (t : list Call),
      fingers (ticks random clock (S n) s) = [(k, f)] /\
      In (k, f) (fingers s) /\
      winnerId (world (ticks random clock (S n) s)) = Some k /\
      consistent (ticks random clock (S n) s) /\
      emits (world s) (world (ticks random clock (S n) s)) t /\
      sounds t = (repeat SoundRemove (S n) ++ [SoundWin])%list.
Proof.
  induction n as [|n IH]; intros s Hs Hsz Hmax.
  - destruct (fireTimer_step s 0 Hs Hsz Hmax)
      as (Hc & Hsz' & Hincl & Hw & t & Ht & Hsnd).
    change (ticks random clock 1 s) with (fireTimer random clock s).
    destruct (fingers (fireTimer random clock s)) as [|[k f] [|e2 m]] eqn:E;
      try discriminate.
    exists k, f, t.
    split; [reflexivity|]. split; [apply Hincl; now left|].
    split; [exact Hw|]. split; [exact Hc|]. split; [exact Ht | exact Hsnd].
  - destruct (fireTimer_step s (S n) Hs Hsz Hmax)
      as (Hc & Hsz' & Hincl & _ & t1 & Ht1 & Hsnd1).
    destruct (IH (fireTimer random clock s) Hc Hsz' ltac:(lia))
      as (k & f & t & Hf & Hin & Hw & Hc' & Ht & Hsnd).
    unfold ticks in *. rewrite Nat.iter_succ_r.
    exists k, f, (t1 ++ t)%list.
    split; [exact Hf|]. split; [now apply Hincl|].
    split; [exact Hw|]. split; [exact Hc'|].
    split; [eapply emits_trans; eauto|].
    rewrite sounds_app, Hsnd1, Hsnd. reflexivity.
Qed.

(** Once the timer is idle, firing it changes nothing. *)
Lemma ticks_idle (m : nat) (s : App) :
  eliminationTimerRef (world s) = None -> ticks random clock m s = s.
Proof.
  intros Href. induction m as [|m IH]; [reflexivity|].
  unfold ticks in *. rewrite Nat.iter_succ, IH.
  unfold fireTimer. now rewrite Href.
Qed.

End Game.

(** X13.  From any reachable state with [n + 2] fingers (a number that has
    its exact double, as every length has), and with random values that
    [Math.random()] can return, [n + 1] firings of the running
    timer and no other event leave exactly one finger, which is one of those
    that were registered, unchanged, and is the declared winner; the timer
    is then stopped, every further firing changes nothing, and over the game
    the component has played "remove" [n + 1] times and "win" once, last. *)
Theorem game_ends_with_one_winner
        (random : nat -> Q) (clock : nat -> Z) (evs : list Event) (n : nat)
        (Hrange : inRange random)
        (Hsize : JsMap.size (fingers (run random clock mount evs))
                 = S (S n))
        (Hmax : Z.of_nat (S (S n)) <= 2 ^ 53) :
  exists (k : Z) (f : Finger),
    fingers (ticks random clock (S n) (run random clock mount evs))
    = [(k, f)] /\
    In (k, f) (fingers (run random clock mount evs)) /\
    winnerId (world (ticks random clock (S n)
                           (run random clock mount evs))) = Some k /\
    timerRunning (world (ticks random clock (S n)
                               (run random clock mount evs))) = false /\
    (forall m : nat,
        ticks random clock (m + S n) (run random clock mount evs)
        = ticks random clock (S n) (run random clock mount evs)) /\
    sounds (since (world (run random clock mount evs))
                  (world (ticks random clock (S n)
                                (run random clock mount evs))))
    = (repeat SoundRemove (S n) ++ [SoundWin])%list.
Proof.
  pose proof (consistent_run random clock evs mount consistent_mount) as Hs.
  destruct (ticks_to_one random clock Hrange n _ Hs Hsize Hmax)
    as (k & f & t & Hf & Hin & Hw & Hc & Ht & Hsnd).
  exists k, f. split; [exact Hf|]. split; [exact Hin|]. split; [exact Hw|].
  assert (Hone : (JsMap.size
                    (fingers (ticks random clock (S n)
                                    (run random clock mount evs))) <= 1)%nat)
    by (rewrite Hf; cbn; lia).
  split.
  - destruct Hc as (_ & _ & ->). now apply Nat.ltb_ge.
  - split.
    + intros m. unfold ticks at 1. rewrite Nat.iter_add.
      apply ticks_idle. now apply consistent_idle.
    + now rewrite (emits_since _ _ _ Ht).
Qed.

(** X13 on the sample game with three fingers down and the random value
    one half: two firings. *)
Lemma game_ends_with_one_winner_witness :
  inRange random_half /\
  exists (k : Z) (f : Finger),
    fingers (ticks random_half clock_count 2
               (run random_half clock_count mount
                    [PointerDown (touch_at 1 10 20);
                     PointerDown (touch_at 2 30 40);
                     PointerDown (touch_at 3 50 60)]))
    = [(k, f)] /\
    winnerId (world (ticks random_half clock_count 2
                       (run random_half clock_count mount
                            [PointerDown (touch_at 1 10 20);
                             PointerDown (touch_at 2 30 40);
                             PointerDown (touch_at 3 50 60)]))) = Some k.
Proof.
  assert (Hrange : inRange random_half).
  { intros n. split.
    - exists 1, 1. split; [reflexivity|]. right. split; [lia | reflexivity].
    - split; vm_compute; [discriminate | reflexivity]. }
  split; [exact Hrange|].
  destruct (game_ends_with_one_winner random_half clock_count
              [PointerDown (touch_at 1 10 20);
               PointerDown (touch_at 2 30 40);
               PointerDown (touch_at 3 50 60)] 1 Hrange)
    as (k & f & Hf & _ & Hw & _).
  - vm_compute. reflexivity.
  - vm_compute. discriminate.
  - exists k, f. split; [exact Hf | exact Hw].
Defined.

(** ** More on pointer events *)

Section MorePointerEvents.

Variable random : nat -> Q.
Variable clock : nat -> Z.

Lemma set_set (m : FingerMap) (k : Z) (v1 v2 : Finger) :
  JsMap.set (JsMap.set m k v1) k v2 = JsMap.set m k v2.
Proof.
  induction m as [|[k' v'] m IH]; cbn.
  - now rewrite Z.eqb_refl.
  - destruct (Z.eqb k' k) eqn:E; cbn.
    + now rewrite Z.eqb_refl.
    + now rewrite E, IH.
Qed.

(** The state after the position update of a registered finger. *)
Lemma commit_upsert_registered_eq (s : App) (k cx cy : Z) (f : Finger) :
  JsMap.get (fingers s) k = Some f ->
  commit s (upsertFinger random clock k cx cy (fingers s))
  = mkApp (JsMap.set (fingers s) k (Finger_moved f cx cy)) (world s)
          (listening s).
Proof.
  intros Hf.
  assert (Hk : JsMap.has (fingers s) k = true).
  { destruct (JsMap.has (fingers s) k) eqn:E; [reflexivity|].
    apply JsMapFacts.get_has_false in E. congruence. }
  assert (Hdep : timerDep (JsMap.set (fingers s) k (Finger_moved f cx cy))
                 = timerDep (fingers s)).
  { unfold timerDep. now rewrite JsMapFacts.keys_set_present. }
  unfold commit, upsertFinger. rewrite Hk, Hf. unfold ret.
  now rewrite Hdep, String.eqb_refl.
Qed.

(** After a release or a cancellation its pointer is not registered. *)
Lemma released_is_absent (s : App) (e : PointerEvent) (up : Event) :
  JsMap.wf (fingers s) ->
  up = PointerUp e \/ up = PointerCancel e ->
  JsMap.has (fingers (dispatch random clock s up)) (pointerId e) = false.
Proof.
  intros Hwf Hup.
  assert (E : dispatch random clock s up
              = commit s (removeFinger (pointerId e) (fingers s)))
    by (destruct Hup as [->| ->]; reflexivity).
  rewrite E, commit_fingers, removeFinger_delete.
  now apply JsMapFacts.has_delete_same.
Qed.

(** The release of a pointer that is not registered changes nothing. *)
Lemma release_of_absent (s : App) (e : PointerEvent) (up : Event) :
  JsMap.has (fingers s) (pointerId e) = false ->
  up = PointerUp e \/ up = PointerCancel e ->
  dispatch random clock s up = s.
Proof.
  intros Hk Hup.
  assert (E : dispatch random clock s up
              = commit s (removeFinger (pointerId e) (fingers s)))
    by (destruct Hup as [->| ->]; reflexivity).
  rewrite E. unfold removeFinger. rewrite Hk. cbn [negb].
  apply commit_ret.
Qed.

End MorePointerEvents.

(** X14.  The winner outlives its finger: when the finger named by
    [winnerId] is released while two or more fingers are registered, the
    finger leaves the registry and [winnerId] still names it. *)
Theorem winner_outlives_its_finger
        (random : nat -> Q) (clock : nat -> Z) (evs : list Event)
        (e : PointerEvent)
        (Hwinner : winnerId (world (run random clock mount evs))
                   = Some (pointerId e))
        (Hsize : (2 <= JsMap.size (fingers (run random clock mount evs)))%nat)
  :
  winnerId (world (dispatch random clock (run random clock mount evs)
                            (PointerUp e)))
  = Some (pointerId e) /\
  JsMap.has (fingers (dispatch random clock (run random clock mount evs)
                               (PointerUp e)))
            (pointerId e) = false.
Proof.
  destruct (consistent_run random clock evs mount consistent_mount)
    as (Hwf & _).
  split.
  - rewrite <- Hwinner.
    apply (pointer_event_winner random clock _ (PointerUp e));
      [discriminate|].
    cbn [dispatch]. rewrite commit_fingers. unfold onPointerUp.
    rewrite removeFinger_delete. intros E.
    pose proof (size_delete (fingers (run random clock mount evs))
                            (pointerId e)) as Hs.
    rewrite E in Hs.
    destruct (JsMap.has _ _) in Hs; cbn in Hs; lia.
  - apply released_is_absent; [exact Hwf | now left].
Qed.

(** X14 on the sample game: finger 2 wins, finger 3 is pressed, finger 2 is
    lifted. *)
Lemma winner_outlives_its_finger_witness :
  winnerId (world (dispatch random_zero clock_count
                     (run random_zero clock_count mount
                          [PointerDown (touch_at 1 10 20);
                           PointerDown (touch_at 2 30 40);
                           IntervalFired 1;
                           PointerDown (touch_at 3 50 60)])
                     (PointerUp (touch_at 2 30 40))))
  = Some 2 /\
  JsMap.has (fingers (dispatch random_zero clock_count
                        (run random_zero clock_count mount
                             [PointerDown (touch_at 1 10 20);
                              PointerDown (touch_at 2 30 40);
                              IntervalFired 1;
                              PointerDown (touch_at 3 50 60)])
                        (PointerUp (touch_at 2 30 40))))
            2 = false.
Proof.
  apply (winner_outlives_its_finger random_zero clock_count
           [PointerDown (touch_at 1 10 20); PointerDown (touch_at 2 30 40);
            IntervalFired 1; PointerDown (touch_at 3 50 60)]
           (touch_at 2 30 40)).
  - vm_compute. reflexivity.
  - vm_compute. lia.
Defined.

(** X15.  Two moves of a registered pointer in a row leave the state the
    second move alone would leave, provided the second is not dropped as a
    non-primary mouse move: of the positions only the last one counts, and
    nothing else records that the first move happened. *)
Theorem moves_collapse_to_the_last
        (random : nat -> Q) (clock : nat -> Z) (s : App)
        (e1 e2 : PointerEvent)
        (Hid : pointerId e1 = pointerId e2)
        (Hreg : JsMap.has (fingers s) (pointerId e2) = true)
        (Hkept : negb (isPrimary e2) && isMouse (pointerType e2) = false) :
  dispatch random clock (dispatch random clock s (PointerMove e1))
           (PointerMove e2)
  = dispatch random clock s (PointerMove e2).
Proof.
  destruct (JsMapFacts.has_get _ _ Hreg) as [f Hf].
  destruct (JsMap.has (listening s) (pointerId e2)) eqn:Hl.
  - assert (Hlast : forall s0 f0,
               JsMap.get (fingers s0) (pointerId e2) = Some f0 ->
               JsMap.has (listening s0) (pointerId e2) = true ->
               dispatch random clock s0 (PointerMove e2)
               = mkApp (JsMap.set (fingers s0) (pointerId e2)
                          (Finger_moved f0 (clientX e2) (clientY e2)))
                       (world s0) (listening s0)).
    { intros s0 f0 Hf0 Hl0. cbn [dispatch]. unfold onPointerMove.
      rewrite Hkept, Hl0. now apply commit_upsert_registered_eq. }
    assert (Hfirst : dispatch random clock s (PointerMove e1) = s \/
                     dispatch random clock s (PointerMove e1)
                     = mkApp (JsMap.set (fingers s) (pointerId e2)
                                (Finger_moved f (clientX e1) (clientY e1)))
                             (world s) (listening s)).
    { cbn [dispatch]. unfold onPointerMove. rewrite Hid, Hl.
      destruct (negb (isPrimary e1) && isMouse (pointerType e1)).
      - left. apply commit_ret.
      - right. now apply commit_upsert_registered_eq. }
    destruct Hfirst as [-> | ->]; [reflexivity|].
    rewrite (Hlast s f Hf Hl).
    rewrite (Hlast _ (Finger_moved f (clientX e1) (clientY e1)));
      [|apply JsMapFacts.get_set_same | exact Hl].
    cbn [fingers world listening]. now rewrite set_set.
  - assert (Hdropped : forall e : PointerEvent,
               pointerId e = pointerId e2 ->
               dispatch random clock s (PointerMove e) = s).
    { intros e He. cbn [dispatch]. unfold onPointerMove. rewrite He, Hl.
      destruct (negb (isPrimary e) && isMouse (pointerType e));
        apply commit_ret. }
    rewrite (Hdropped e1 Hid). reflexivity.
Qed.

(** X15 on the sample game: finger 2 moves twice. *)
Lemma moves_collapse_to_the_last_witness :
  dispatch random_zero clock_count
           (dispatch random_zero clock_count two_touching
                     (PointerMove (touch_at 2 31 41)))
           (PointerMove (touch_at 2 35 45))
  = dispatch random_zero clock_count two_touching
             (PointerMove (touch_at 2 35 45)).
Proof.
  apply moves_collapse_to_the_last;
    [reflexivity | vm_compute; reflexivity | reflexivity].
Defined.

(** X16.  A second release or cancellation of a pointer, right after its
    release or cancellation, changes nothing: no further finger is removed,
    no sound is played, the timer is not touched. *)
Theorem release_is_idempotent
        (random : nat -> Q) (clock : nat -> Z) (evs : list Event)
        (e e' : PointerEvent) (up up' : Event)
        (Hup : up = PointerUp e \/ up = PointerCancel e)
        (Hup' : up' = PointerUp e' \/ up' = PointerCancel e')
        (Hid : pointerId e' = pointerId e) :
  dispatch random clock
           (dispatch random clock (run random clock mount evs) up) up'
  = dispatch random clock (run random clock mount evs) up.
Proof.
  destruct (consistent_run random clock evs mount consistent_mount)
    as (Hwf & _).
  apply release_of_absent with (e := e'); [|exact Hup'].
  rewrite Hid. now apply released_is_absent.
Qed.

(** X16 on the sample game: pointer 1 is released and then cancelled. *)
Lemma release_is_idempotent_witness :
  dispatch random_zero clock_count
           (dispatch random_zero clock_count
                     (run random_zero clock_count mount
                          [PointerDown (touch_at 1 10 20);
                           PointerDown (touch_at 2 30 40)])
                     (PointerUp (touch_at 1 10 20)))
           (PointerCancel (touch_at 1 12 22))
  = dispatch random_zero clock_count
             (run random_zero clock_count mount
                  [PointerDown (touch_at 1 10 20);
                   PointerDown (touch_at 2 30 40)])
             (PointerUp (touch_at 1 10 20)).
Proof.
  apply (release_is_idempotent random_zero clock_count
           [PointerDown (touch_at 1 10 20); PointerDown (touch_at 2 30 40)]
           (touch_at 1 10 20) (touch_at 1 12 22));
    [now left | now right | reflexivity].
Defined.

(** X17.  A press registers its pointer unless it is a mouse press with a
    button other than the primary one: such a press is dropped whole, with
    no finger, no sound and no change of the timer, while a touch or pen
    press is taken whatever its button. *)
Theorem press_registers_unless_secondary_mouse
        (random : nat -> Q) (clock : nat -> Z) (s : App) (e : PointerEvent) :
  JsMap.has (fingers (dispatch random clock s (PointerDown e))) (pointerId e)
  = (JsMap.has (fingers s) (pointerId e)
     || negb (isMouse (pointerType e) && negb (button e =? 0))) /\
  (if isMouse (pointerType e) && negb (button e =? 0)
   then dispatch random clock s (PointerDown e) = s
   else JsMap.size (fingers (dispatch random clock s (PointerDown e)))
        = ((if JsMap.has (fingers s) (pointerId e) then 0 else 1)
           + JsMap.size (fingers s))%nat).
Proof.
  cbn [dispatch]. unfold onPointerDown.
  destruct (isMouse (pointerType e) && negb (button e =? 0)); cbn [negb].
  - rewrite commit_ret, orb_false_r. auto.
  - rewrite commit_fingers, orb_true_r.
    destruct (upsertFinger_set random clock (pointerId e) (clientX e)
                (clientY e) (fingers s) (world s)) as [v ->].
    split; [apply JsMapFacts.has_set_same | apply size_set].
Qed.
